(** * Merlin++ AcceleratorModelConstructor: a shallow embedding

    The construction protocol of [AcceleratorModelConstructor.cpp]: an
    explicit stack of open frames, a registry of model elements, and a
    flat lattice of component frames.  Objects are identified by their
    address; the operations are state transformers over the constructor's
    members, and an operation that can hit a failed [assert] or undefined
    behaviour returns an [outcome]. *)

From Stdlib Require Import QArith.
From stdpp Require Import gmap strings list fin_maps.

Local Close Scope Q_scope.
Set Warnings "-register-all,-clear-no-such-hyp".
Local Open Scope string_scope.
Local Open Scope list_scope.
Local Open Scope nat_scope.

(** ** Addresses and outcomes *)

(** An object is identified by its address.  [Allocated n] is the [n]-th
    object obtained with [new] by the constructor itself, [Client n] an
    object allocated by the calling code: the two never coincide.  The
    storage of an object that was released may be handed out again by a
    later [new]; the object made there is another object and has another
    name here. *)
Inductive addr :=
  | Allocated (n : nat)
  | Client (n : nat).

#[global] Instance addr_eq_dec : EqDecision addr.
Proof. solve_decision. Defined.

Definition addr_to_sum (a : addr) : nat + nat :=
  match a with Allocated n => inl n | Client n => inr n end.

Definition addr_of_sum (x : nat + nat) : addr :=
  match x with inl n => Allocated n | inr n => Client n end.

#[global] Instance addr_countable : Countable addr.
Proof.
  apply (inj_countable' addr_to_sum addr_of_sum).
  intros []; reflexivity.
Defined.

(** What C++ leaves undefined and the constructor can run into. *)
Inductive fault :=
  | NullPointer      (* a member access through a null pointer *)
  | EmptyStack       (* [top()] or [pop()] of an empty [std::stack] *)
  | DanglingPointer. (* a frame pointer whose model is gone *)

Inductive outcome (A : Type) :=
  | Ok (a : A)
  | AssertionFailed
  | Undefined (why : fault).

Arguments Ok {A} a.
Arguments AssertionFailed {A}.
Arguments Undefined {A} why.

#[global] Instance outcome_bind : MBind outcome := fun A B k x =>
  match x with
  | Ok a => k a
  | AssertionFailed => AssertionFailed
  | Undefined w => Undefined w
  end.

Definition is_Ok {A} (x : outcome A) : bool :=
  match x with Ok _ => true | _ => false end.

(** ** The data model *)

(** Modelled from the spec: an entity "has a type tag (string) used for
    statistics, and an identity used for deduplication".  [ModelElement]
    is declared outside the translated files. *)
Record ModelElement := {
  element_id : addr;
  element_type : string
}.

(** Modelled from the spec: the physical component an occurrence refers
    to; only its length matters to the constructor.  [double] lengths are
    rationals here. *)
Record AcceleratorComponent := {
  component_id : addr;
  component_type : string;
  component_name : string;
  component_length : Q
}.

(** Modelled from the spec: a component-occurrence "may or may not carry a
    distinct component instance (some occurrences reuse a shared component
    definition)".  [GetComponent] is the component it refers to,
    [IsComponent] whether it carries it.  Its beamline index is mutable
    and lives in the constructor's object memory, see [blI]. *)
Record ComponentFrame := {
  cf_id : addr;
  GetComponent : AcceleratorComponent;
  IsComponent : bool
}.

Inductive Origin := originAtEntrance | originAtCenter | originAtExit.

(** Modelled from the spec: a frame "has a name, an origin policy, an
    ordered list of children (frames or component-occurrences)"; a child is
    either a plain sequence frame or a component frame, which is what the
    [dynamic_cast] of the traversal tells apart. *)
Inductive LatticeFrame :=
  | ASequenceFrame (id : addr) (name : string) (origin : Origin)
      (consolidated : bool) (children : list LatticeFrame)
  | AComponentFrame (cf : ComponentFrame).

Record SequenceFrame := {
  sf_id : addr;
  sf_name : string;
  sf_origin : Origin;
  sf_consolidated : bool;
  subFrames : list LatticeFrame
}.

(** [SequenceFrame*] seen as [LatticeFrame*]. *)
Definition upcast (f : SequenceFrame) : LatticeFrame :=
  ASequenceFrame (sf_id f) (sf_name f) (sf_origin f) (sf_consolidated f)
    (subFrames f).

(** [dynamic_cast<ComponentFrame*>(frame)]: null for a plain frame. *)
Definition dynamic_cast_ComponentFrame (frame : LatticeFrame)
  : option ComponentFrame :=
  match frame with
  | AComponentFrame cf => Some cf
  | ASequenceFrame _ _ _ _ _ => None
  end.

Definition frame_id (frame : LatticeFrame) : addr :=
  match frame with
  | ASequenceFrame id _ _ _ _ => id
  | AComponentFrame cf => cf_id cf
  end.

(** The [ModelElement] base of each kind of object.  Modelled from the
    spec: the type tag of a frame is declared outside the translated files;
    its class name stands for it. *)
Definition component_element (c : AcceleratorComponent) : ModelElement :=
  {| element_id := component_id c; element_type := component_type c |}.

Definition occurrence_element (cf : ComponentFrame) : ModelElement :=
  {| element_id := cf_id cf; element_type := "ComponentFrame" |}.

Definition sequence_element (f : SequenceFrame) : ModelElement :=
  {| element_id := sf_id f; element_type := "SequenceFrame" |}.

Definition frame_element (frame : LatticeFrame) : ModelElement :=
  match frame with
  | ASequenceFrame id _ _ _ _ =>
      {| element_id := id; element_type := "SequenceFrame" |}
  | AComponentFrame cf => occurrence_element cf
  end.

(** Modelled from the spec: the Entity Registry ([ElementRepository], a
    set of element pointers) "deduplicates by identity": adding an element
    whose address is already there changes nothing.  The map sends the
    address of a registered element to its type tag. *)
Abbreviation ElementRepository := (gmap addr string).

Definition Add (e : ModelElement) (r : ElementRepository)
  : ElementRepository :=
  match r !! element_id e with
  | Some _ => r
  | None => <[element_id e := element_type e]> r
  end.

Definition Size (r : ElementRepository) : nat := size r.

(** Modelled from the spec: [SequenceFrame::AppendFrame] adds a child at
    the end of the "ordered list of children". *)
Definition SequenceFrame_AppendFrame (child : LatticeFrame)
    (f : SequenceFrame) : SequenceFrame :=
  {| sf_id := sf_id f; sf_name := sf_name f; sf_origin := sf_origin f;
     sf_consolidated := sf_consolidated f;
     subFrames := subFrames f ++ [child] |}.

(** Modelled from the spec: consolidation is "finalizing a frame's
    structure so cumulative geometric queries become stable". *)
Definition ConsolidateConstruction (f : SequenceFrame) : SequenceFrame :=
  {| sf_id := sf_id f; sf_name := sf_name f; sf_origin := sf_origin f;
     sf_consolidated := true; subFrames := subFrames f |}.

(** Modelled from the spec: a frame's "derived geometric length (sum of
    children's extents)"; a component frame has the length of its
    component. *)
Fixpoint GetGeometryLength (frame : LatticeFrame) : Q :=
  match frame with
  | ASequenceFrame _ _ _ _ children =>
      fold_right (fun child acc => Qplus (GetGeometryLength child) acc)
        (0%Q) children
  | AComponentFrame cf => component_length (GetComponent cf)
  end.

(** Modelled from the spec: the Traversal Protocol, "a pre-order walk over
    a frame's children", which visits "children in their stored order,
    recursing into sub-frames before continuing to subsequent siblings".
    [act] is the [ActOn] of the [FrameTraverser]. *)
Fixpoint Traverse {S : Type} (act : LatticeFrame → S → S)
    (frame : LatticeFrame) (st : S) : S :=
  match frame with
  | ASequenceFrame _ _ _ _ children =>
      fold_left (fun acc child => Traverse act child acc) children
        (act frame st)
  | AComponentFrame _ => act frame st
  end.

(** ** [MEExtractor] *)

Record MEExtractor := {
  erepo : ElementRepository;
  mx_lattice : list ComponentFrame
}.

(** [MEExtractor::ActOn].  A [dynamic_cast] of a pointer does not throw, so
    neither handler is ever entered. *)
Definition ActOn (frame : LatticeFrame) (mx : MEExtractor) : MEExtractor :=
  let erepo1 := Add (frame_element frame) (erepo mx) in
  match dynamic_cast_ComponentFrame frame with
  | Some cf =>
      {| erepo := Add (component_element (GetComponent cf)) erepo1;
         mx_lattice := mx_lattice mx ++ [cf] |}
  | None => {| erepo := erepo1; mx_lattice := mx_lattice mx |}
  end.

(** ** The model and the constructor *)

Record AcceleratorModel := {
  globalFrame : SequenceFrame;
  theElements : ElementRepository;
  lattice : list ComponentFrame
}.

(** An entry of [frameStack].  The root frame belongs to the model, which
    holds it in [globalFrame], and the stack refers to that same object;
    every other open frame was handed in through [NewFrame] and is held by
    its stack entry until [EndFrame] hands it to its parent.  An entry holds
    the frame as it is by now, which stands for the object pointed to as
    long as that object is on the stack or in the tree once: what is proved
    of the children of frames is proved of constructions in which every
    frame object is handed over once, see [each_frame_once]. *)
Inductive FramePtr :=
  | GlobalFramePtr
  | OpenFramePtr (f : SequenceFrame).

(** The members of [AcceleratorModelConstructor] ([frameStack] with its top
    first), with the part of the object memory the operations touch: [blI],
    the beamline index stored in each component frame, by address, and
    [brk], the number of frames and components the constructor has
    allocated so far, and [deleted], the models it has handed to [delete],
    the latest first. *)
Record AcceleratorModelConstructor := {
  currentModel : option AcceleratorModel;
  frameStack : list FramePtr;
  blI : gmap addr nat;
  brk : nat;
  deleted : list AcceleratorModel
}.

Abbreviation state := AcceleratorModelConstructor.

Definition set_model (m : AcceleratorModel) (s : state) : state :=
  {| currentModel := Some m; frameStack := frameStack s;
     blI := blI s; brk := brk s; deleted := deleted s |}.

Definition set_stack (st : list FramePtr) (s : state) : state :=
  {| currentModel := currentModel s; frameStack := st;
     blI := blI s; brk := brk s; deleted := deleted s |}.

Definition set_globalFrame (g : SequenceFrame) (m : AcceleratorModel)
  : AcceleratorModel :=
  {| globalFrame := g; theElements := theElements m; lattice := lattice m |}.

Definition set_theElements (r : ElementRepository) (m : AcceleratorModel)
  : AcceleratorModel :=
  {| globalFrame := globalFrame m; theElements := r; lattice := lattice m |}.

Definition set_lattice (l : list ComponentFrame) (m : AcceleratorModel)
  : AcceleratorModel :=
  {| globalFrame := globalFrame m; theElements := theElements m;
     lattice := l |}.

(** [cf->SetBeamlineIndex(n)] and [cf->GetBeamlineIndex()]; [None] when the
    constructor never wrote the field. *)
Definition SetBeamlineIndex (cf : ComponentFrame) (n : nat) (s : state)
  : state :=
  {| currentModel := currentModel s; frameStack := frameStack s;
     blI := <[cf_id cf := n]> (blI s); brk := brk s;
     deleted := deleted s |}.

Definition GetBeamlineIndex (s : state) (cf : ComponentFrame) : option nat :=
  blI s !! cf_id cf.

(** [*p] for an entry [p] of the stack. *)
Definition deref (p : FramePtr) (s : state) : outcome SequenceFrame :=
  match p with
  | OpenFramePtr f => Ok f
  | GlobalFramePtr =>
      match currentModel s with
      | Some m => Ok (globalFrame m)
      | None => Undefined DanglingPointer
      end
  end.

(** [(frameStack.top())->AppendFrame(child)] *)
Definition top_AppendFrame (child : LatticeFrame) (s : state)
  : outcome state :=
  match frameStack s with
  | [] => Undefined EmptyStack
  | OpenFramePtr f :: rest =>
      Ok (set_stack (OpenFramePtr (SequenceFrame_AppendFrame child f) :: rest)
            s)
  | GlobalFramePtr :: _ =>
      match currentModel s with
      | Some m =>
          Ok (set_model
                (set_globalFrame
                   (SequenceFrame_AppendFrame child (globalFrame m)) m) s)
      | None => Undefined DanglingPointer
      end
  end.

(** [while(!frameStack.empty()) frameStack.pop();] *)
Fixpoint drain (st : list FramePtr) : list FramePtr :=
  match st with
  | [] => []
  | _ :: rest => drain rest
  end.

(** [delete currentModel] hands the model in progress to [delete]; the
    stack is drained in the same branch. *)
Definition NewModel (s : state) : state :=
  let gone := match currentModel s with
              | Some m => m :: deleted s
              | None => deleted s
              end in
  let st := match currentModel s with
            | Some _ => drain (frameStack s)
            | None => frameStack s
            end in
  let global := {| sf_id := Allocated (brk s); sf_name := "GLOBAL";
                   sf_origin := originAtEntrance; sf_consolidated := false;
                   subFrames := [] |} in
  {| currentModel :=
       Some {| globalFrame := global; theElements := ∅; lattice := [] |};
     frameStack := GlobalFramePtr :: st;
     blI := blI s;
     brk := Datatypes.S (brk s);
     deleted := gone |}.

(** The C++ constructor: [currentModel(nullptr)], then [NewModel()].  [mem]
    is the object memory it starts in. *)
Definition construct (mem : gmap addr nat) : state :=
  NewModel {| currentModel := None; frameStack := []; blI := mem; brk := 0;
              deleted := [] |}.

Definition GetModel (s : state) : outcome (AcceleratorModel * state) :=
  match frameStack s with
  | [] => Undefined EmptyStack
  | _ :: rest =>
      match currentModel s, rest with
      | Some m, [] =>
          Ok (set_globalFrame (ConsolidateConstruction (globalFrame m)) m,
              {| currentModel := None; frameStack := [];
                 blI := blI s; brk := brk s; deleted := deleted s |})
      | _, _ => AssertionFailed
      end
  end.

(** [aFrame] may be null, which the assertion rejects. *)
Definition NewFrame (aFrame : option SequenceFrame) (s : state)
  : outcome state :=
  match currentModel s, aFrame with
  | Some m, Some f =>
      Ok (set_stack (OpenFramePtr f :: frameStack s)
            (set_model
               (set_theElements (Add (sequence_element f) (theElements m)) m)
               s))
  | _, _ => AssertionFailed
  end.

Definition EndFrame (s : state) : outcome state :=
  match frameStack s with
  | [] => Undefined EmptyStack
  | cf :: rest =>
      match rest with
      | [] => Undefined EmptyStack
      | _ :: _ =>
          f ← deref cf s;
          top_AppendFrame (upcast f) (set_stack rest s)
      end
  end.

Definition AppendComponentFrame (cf : ComponentFrame) (s : state)
  : outcome state :=
  match currentModel s with
  | None => AssertionFailed
  | Some m =>
      let r1 := Add (occurrence_element cf) (theElements m) in
      let r2 := if IsComponent cf
                then Add (component_element (GetComponent cf)) r1
                else r1 in
      let m' := set_lattice (lattice m ++ [cf]) (set_theElements r2 m) in
      s' ← top_AppendFrame (AComponentFrame cf) (set_model m' s);
      Ok (SetBeamlineIndex cf (length (lattice m') - 1) s')
  end.

(** Both objects are new; a [TComponentFrame] built around a component
    carries it. *)
Definition AppendDrift (d : Q) (s : state) : outcome state :=
  let newd := {| component_id := Allocated (brk s);
                 component_type := "Drift"; component_name := "UNNAMED";
                 component_length := d |} in
  let cf := {| cf_id := Allocated (Datatypes.S (brk s));
               GetComponent := newd; IsComponent := true |} in
  AppendComponentFrame cf
    {| currentModel := currentModel s; frameStack := frameStack s;
       blI := blI s; brk := Datatypes.S (Datatypes.S (brk s));
       deleted := deleted s |}.

Definition AddModelElement (element : ModelElement) (s : state)
  : outcome state :=
  match currentModel s with
  | None => Undefined NullPointer
  | Some m =>
      Ok (set_model (set_theElements (Add element (theElements m)) m) s)
  end.

Definition AppendFrame (aFrame : SequenceFrame) (s : state)
  : outcome state :=
  match currentModel s with
  | None => AssertionFailed
  | Some m =>
      let mextr := Traverse ActOn (upcast aFrame)
                     {| erepo := theElements m; mx_lattice := lattice m |} in
      let m' := set_lattice (mx_lattice mextr)
                  (set_theElements (erepo mextr) m) in
      top_AppendFrame (upcast aFrame) (set_model m' s)
  end.

(** What [ReportStatistics] writes to the stream. *)
Record Statistics := {
  arc_length : Q;
  number_of_components : nat;
  number_of_elements : nat;
  element_statistics : gmap string nat
}.

(** [ModelStats::operator()]: [s[element->GetType()]++] *)
Definition ModelStats (type : string) (stats : gmap string nat)
  : gmap string nat :=
  <[type := Datatypes.S (default 0 (stats !! type))]> stats.

Definition ReportStatistics (s : state) : outcome Statistics :=
  match currentModel s with
  | None => Undefined NullPointer
  | Some m =>
      Ok {| arc_length := GetGeometryLength (upcast (globalFrame m));
            number_of_components := length (lattice m);
            number_of_elements := Size (theElements m);
            element_statistics :=
              map_fold (fun _ type stats => ModelStats type stats) ∅
                (theElements m) |}
  end.

(** ** Calls and runs *)

(** A call of a public member function that changes the constructor. *)
Inductive call :=
  | CallNewModel
  | CallGetModel
  | CallNewFrame (aFrame : option SequenceFrame)
  | CallEndFrame
  | CallAppendDrift (d : Q)
  | CallAddModelElement (element : ModelElement)
  | CallAppendFrame (aFrame : SequenceFrame)
  | CallAppendComponentFrame (cf : ComponentFrame).

Definition step (c : call) (s : state) : outcome state :=
  match c with
  | CallNewModel => Ok (NewModel s)
  | CallGetModel => r ← GetModel s; Ok (snd r)
  | CallNewFrame aFrame => NewFrame aFrame s
  | CallEndFrame => EndFrame s
  | CallAppendDrift d => AppendDrift d s
  | CallAddModelElement element => AddModelElement element s
  | CallAppendFrame aFrame => AppendFrame aFrame s
  | CallAppendComponentFrame cf => AppendComponentFrame cf s
  end.

Fixpoint run (cs : list call) (s : state) : outcome state :=
  match cs with
  | [] => Ok s
  | c :: cs' => s' ← step c s; run cs' s'
  end.

(** A state the program can be in: some calls, all of which returned, after
    the C++ constructor. *)
Definition reachable (s : state) : Prop :=
  ∃ mem cs, run cs (construct mem) = Ok s.

(** The frame that receives the appends. *)
Definition top_frame (s : state) : outcome SequenceFrame :=
  match frameStack s with
  | [] => Undefined EmptyStack
  | p :: _ => deref p s
  end.

(** The calls that build one model, with every [NewFrame] of a frame
    closed by an [EndFrame] later on and no [EndFrame] without its
    [NewFrame]; [depth] counts the frames opened and not closed yet. *)
Fixpoint balanced_from (depth : nat) (cs : list call) : bool :=
  match cs with
  | [] => bool_decide (depth = 0)
  | CallNewFrame (Some _) :: cs' => balanced_from (Datatypes.S depth) cs'
  | CallEndFrame :: cs' =>
      match depth with
      | 0 => false
      | Datatypes.S depth' => balanced_from depth' cs'
      end
  | CallNewFrame None :: _ | CallNewModel :: _ | CallGetModel :: _ => false
  | _ :: cs' => balanced_from depth cs'
  end.

Definition balanced (cs : list call) : bool := balanced_from 0 cs.

(** The component frames of a frame, in document order: the frame
    flattened, as the spec says. *)
Fixpoint flatten (frame : LatticeFrame) : list ComponentFrame :=
  match frame with
  | ASequenceFrame _ _ _ _ children => flat_map flatten children
  | AComponentFrame cf => [cf]
  end.

(** The frames of a frame in the order the traversal meets them. *)
Fixpoint preorder (frame : LatticeFrame) : list LatticeFrame :=
  frame ::
  match frame with
  | ASequenceFrame _ _ _ _ children => flat_map preorder children
  | AComponentFrame _ => []
  end.

(** The number of component-occurrences a call appends. *)
Definition occurrences_of_call (c : call) : nat :=
  match c with
  | CallAppendDrift _ | CallAppendComponentFrame _ => 1
  | CallAppendFrame aFrame => length (flatten (upcast aFrame))
  | _ => 0
  end.

Definition occurrences_appended (cs : list call) : nat :=
  sum_list (occurrences_of_call <$> cs).

(** The spec's other way to add a sub-tree: flatten it, then splice its
    occurrences in with one [AppendComponentFrame] each. *)
Fixpoint replay (occurrences : list ComponentFrame) (s : state)
  : outcome state :=
  match occurrences with
  | [] => Ok s
  | cf :: rest => s' ← AppendComponentFrame cf s; replay rest s'
  end.

Definition flatten_then_splice (aFrame : SequenceFrame) (s : state)
  : outcome state :=
  replay (flatten (upcast aFrame)) s.

(** The addresses a visited frame hands to the registry. *)
Definition registered_by_visit (frame : LatticeFrame) : list addr :=
  frame_id frame ::
  match dynamic_cast_ComponentFrame frame with
  | Some cf => [component_id (GetComponent cf)]
  | None => []
  end.

(** The addresses a call hands to the registry; [n] is the number of
    objects allocated before the call. *)
Definition registered_by_call (c : call) (n : nat) : list addr :=
  match c with
  | CallNewFrame (Some f) => [sf_id f]
  | CallAppendDrift _ => [Allocated (Datatypes.S n); Allocated n]
  | CallAddModelElement element => [element_id element]
  | CallAppendFrame aFrame =>
      flat_map registered_by_visit (preorder (upcast aFrame))
  | CallAppendComponentFrame cf =>
      cf_id cf ::
      (if IsComponent cf then [component_id (GetComponent cf)] else [])
  | _ => []
  end.

Definition allocated_by_call (c : call) : nat :=
  match c with
  | CallNewModel => 1
  | CallAppendDrift _ => 2
  | _ => 0
  end.

Fixpoint registered (cs : list call) (n : nat) : list addr :=
  match cs with
  | [] => []
  | c :: cs' =>
      registered_by_call c n ++ registered cs' (allocated_by_call c + n)
  end.

(** The calls of one construction: neither [NewModel] nor [GetModel]. *)
Definition construction_call (c : call) : bool :=
  match c with
  | CallNewModel | CallGetModel => false
  | _ => true
  end.

(** The depth of the stack after a call. *)
Definition depth_after (c : call) (n : nat) : nat :=
  match c with
  | CallNewFrame _ => Datatypes.S n
  | CallEndFrame => pred n
  | _ => n
  end.

(** The frames a call needs on the stack. *)
Definition depth_needed (c : call) : nat :=
  match c with
  | CallEndFrame => 2
  | _ => 1
  end.

Definition is_global (p : FramePtr) : bool :=
  match p with
  | GlobalFramePtr => true
  | OpenFramePtr _ => false
  end.

(** The root is at the bottom of the stack and nowhere else. *)
Definition rooted (st : list FramePtr) : Prop :=
  ∃ n, is_global <$> st = replicate n false ++ [true].

(** What holds of every state the program can be in: with no model in
    progress the stack is empty; the root frame of the model in progress
    is an object the constructor allocated, and it is at the bottom of the
    stack, under the frames opened by [NewFrame]. *)
Definition invariant (s : state) : Prop :=
  (currentModel s = None → frameStack s = []) ∧
  (∀ m, currentModel s = Some m →
     ∃ n, sf_id (globalFrame m) = Allocated n ∧ n < brk s) ∧
  (is_Some (currentModel s) → rooted (frameStack s)).

(** The lattice of [m] is indexed in [s]: the component frame at position
    [i] stores the index [i]. *)
Definition indexed (s : state) (m : AcceleratorModel) : Prop :=
  ∀ i cf, lattice m !! i = Some cf → GetBeamlineIndex s cf = Some i.

Definition is_client (a : addr) : bool :=
  match a with
  | Client _ => true
  | Allocated _ => false
  end.

(** The component frames the calls hand to [AppendComponentFrame]. *)
Fixpoint appended_directly (cs : list call) : list addr :=
  match cs with
  | [] => []
  | CallAppendComponentFrame cf :: cs' => cf_id cf :: appended_directly cs'
  | _ :: cs' => appended_directly cs'
  end.

(** A call of a construction that appends nothing through [AppendFrame]
    and hands over objects of the caller only. *)
Definition direct_call (c : call) : bool :=
  match c with
  | CallNewModel | CallGetModel | CallAppendFrame _ => false
  | CallAppendComponentFrame cf => is_client (cf_id cf)
  | _ => true
  end.

(** The frame an entry of the stack points to, in the model [m]. *)
Definition frame_of (m : AcceleratorModel) (p : FramePtr) : SequenceFrame :=
  match p with
  | GlobalFramePtr => globalFrame m
  | OpenFramePtr f => f
  end.

(** The component frames of the frames under construction: the root first
    and the top frame last, each of them in document order. *)
Definition occurrences_under_construction (m : AcceleratorModel)
    (st : list FramePtr) : list ComponentFrame :=
  flat_map (λ p, flatten (upcast (frame_of m p))) (reverse st).

(** A call that opens no frame with component frames in it already. *)
Definition opens_empty (c : call) : bool :=
  match c with
  | CallNewFrame (Some f) =>
      match flatten (upcast f) with
      | [] => true
      | _ :: _ => false
      end
  | _ => true
  end.

(** The number of registered elements of a type. *)
Definition elements_of_type (type : string) (r : ElementRepository) : nat :=
  size (filter (λ kv, kv.2 = type) r).

(** The sum of the counts of a statistics table. *)
Definition statistics_total (stats : gmap string nat) : nat :=
  map_fold (λ _ count total, count + total) 0 stats.

(** The addresses the replay of some occurrences hands to the registry. *)
Definition registered_by_replay (occurrences : list ComponentFrame)
  : list addr :=
  flat_map (λ cf, registered_by_call (CallAppendComponentFrame cf) 0)
    occurrences.

(** A call that hands over objects of the caller only; [AppendDrift] hands
    over none. *)
Definition client_call (c : call) : bool :=
  match c with
  | CallAppendDrift _ => true
  | _ => forallb is_client (registered_by_call c 0)
  end.

(** The number of objects some calls allocate. *)
Definition allocated (cs : list call) : nat :=
  sum_list (allocated_by_call <$> cs).

(** The lattice lists the component frames of the frames under
    construction, in document order. *)
Definition lattice_follows_tree (s : state) : Prop :=
  ∃ m, currentModel s = Some m ∧ rooted (frameStack s) ∧
    lattice m = occurrences_under_construction m (frameStack s).

(** [f'] is the frame [f] with more children at the end. *)
Definition extends (f f' : SequenceFrame) : Prop :=
  sf_id f' = sf_id f ∧ sf_name f' = sf_name f ∧
  sf_origin f' = sf_origin f ∧ subFrames f `prefix_of` subFrames f'.

(** The entry [p'] of the stack, in the model [m'], is the entry [p] in the
    model [m], and its frame has only got more children; when it is not
    the root, the root is as it was. *)
Definition kept (m : AcceleratorModel) (p : FramePtr) (m' : AcceleratorModel)
    (p' : FramePtr) : Prop :=
  match p with
  | GlobalFramePtr =>
      p' = GlobalFramePtr ∧ extends (globalFrame m) (globalFrame m')
  | OpenFramePtr f =>
      (∃ f', p' = OpenFramePtr f' ∧ extends f f') ∧
      globalFrame m' = globalFrame m
  end.

(** Modelled from the spec: what [delete] releases with a model is written
    in the destructor of [AcceleratorModel], declared outside the translated
    files.  The model is the "aggregate owning: the root Frame, the Entity
    Registry, and the Flat Lattice", and the registry "exclusively owns
    every entity's storage": the objects that go with a model are its root
    frame and its registered elements. *)
Definition owned (m : AcceleratorModel) : gset addr :=
  {[sf_id (globalFrame m)]} ∪ dom (theElements m).

(** The objects released so far, with the models handed to [delete]. *)
Definition released (s : state) : gset addr :=
  ⋃ (owned <$> deleted s).

(** The entities of a frame: the frame itself, the frames and component
    frames in it, and the components these refer to. *)
Fixpoint entities (frame : LatticeFrame) : list addr :=
  match frame with
  | ASequenceFrame id _ _ _ children => id :: flat_map entities children
  | AComponentFrame cf => [cf_id cf; component_id (GetComponent cf)]
  end.

(** The entities a call of a construction brings in: the frames, the
    occurrences and the components the caller made and hands over, whole
    sub-trees included, the free element of [AddModelElement], and the two
    objects [AppendDrift] makes; [n] is the number of objects allocated
    before the call. *)
Definition entities_of_call (c : call) (n : nat) : list addr :=
  match c with
  | CallNewFrame (Some f) | CallAppendFrame f => entities (upcast f)
  | CallAppendComponentFrame cf => entities (AComponentFrame cf)
  | CallAppendDrift _ => [Allocated (Datatypes.S n); Allocated n]
  | CallAddModelElement element => [element_id element]
  | _ => []
  end.

(** The entities created in a construction besides the root frame. *)
Fixpoint entities_created (cs : list call) (n : nat) : list addr :=
  match cs with
  | [] => []
  | c :: cs' =>
      entities_of_call c n ++ entities_created cs' (allocated_by_call c + n)
  end.

(** A call that opens no frame with children in it already and appends no
    occurrence without the component it refers to. *)
Definition plain_call (c : call) : bool :=
  match c with
  | CallNewFrame (Some f) =>
      match subFrames f with
      | [] => true
      | _ :: _ => false
      end
  | CallAppendComponentFrame cf => IsComponent cf
  | _ => true
  end.

(** The addresses of the sequence frames among some frames. *)
Definition sequence_frames (frames : list LatticeFrame) : list addr :=
  flat_map (λ frame, match frame with
                     | ASequenceFrame id _ _ _ _ => [id]
                     | AComponentFrame _ => []
                     end) frames.

(** The frame objects a call hands over: the frame of [NewFrame] or
    [AppendFrame] and the frames in it. *)
Definition frames_of_call (c : call) : list addr :=
  match c with
  | CallNewFrame (Some f) | CallAppendFrame f =>
      sequence_frames (preorder (upcast f))
  | _ => []
  end.

Definition frames_handed_over (cs : list call) : list addr :=
  flat_map frames_of_call cs.

(** Every frame object the calls hand over is an object of the caller and
    is handed over once: no frame is opened twice, opened while it is open
    or in the tree already, or appended twice.  For such calls a frame on
    the stack or in the tree is one object with one list of children. *)
Definition each_frame_once (cs : list call) : bool :=
  bool_decide (NoDup (frames_handed_over cs)) &&
  forallb is_client (frames_handed_over cs).

(** The objects of the caller that some calls hand over. *)
Definition handed_over (cs : list call) : list addr :=
  flat_map (λ c, match c with
                 | CallAppendDrift _ => []
                 | _ => entities_of_call c 0
                 end) cs.

(** The calls [later] hand over objects of the caller only, none of which
    the calls [earlier] had handed over. *)
Definition new_objects (earlier later : list call) : bool :=
  forallb (λ a, is_client a && bool_decide (a ∉ handed_over earlier))
    (handed_over later).

(** Induction on a frame with the hypothesis for every child. *)
Section LatticeFrame_induction.
Variable P : LatticeFrame → Prop.
Hypothesis Hsequence : ∀ id name origin consolidated children,
  Forall P children →
  P (ASequenceFrame id name origin consolidated children).
Hypothesis Hcomponent : ∀ cf, P (AComponentFrame cf).

Fixpoint LatticeFrame_nested_ind (frame : LatticeFrame) : P frame :=
  match frame with
  | ASequenceFrame id name origin consolidated children =>
      Hsequence id name origin consolidated children
        ((fix all (l : list LatticeFrame) : Forall P l :=
            match l with
            | [] => List.Forall_nil P
            | x :: l' =>
                @List.Forall_cons _ P x l' (LatticeFrame_nested_ind x) (all l')
            end) children)
  | AComponentFrame cf => Hcomponent cf
  end.
End LatticeFrame_induction.

(** ** The scenario of the specification *)

Module Scenario.

Definition F1 : SequenceFrame :=
  {| sf_id := Client 0; sf_name := "F1"; sf_origin := originAtEntrance;
     sf_consolidated := false; subFrames := [] |}.

(** The quadrupole placeholder, of no length. *)
Definition Q1 : AcceleratorComponent :=
  {| component_id := Client 1; component_type := "Quadrupole";
     component_name := "Q1"; component_length := 0%Q |}.

Definition Q1_occurrence : ComponentFrame :=
  {| cf_id := Client 2; GetComponent := Q1; IsComponent := true |}.

Definition calls : list call :=
  [ CallAppendDrift (2%Q);
    CallNewFrame (Some F1);
    CallAppendDrift (3 # 2)%Q;
    CallAppendComponentFrame Q1_occurrence;
    CallEndFrame ].

Definition finish : outcome (AcceleratorModel * state) :=
  s ← run calls (construct ∅); GetModel s.

Definition drift (n : nat) (d : Q) : AcceleratorComponent :=
  {| component_id := Allocated n; component_type := "Drift";
     component_name := "UNNAMED"; component_length := d |}.

Definition drift0 : ComponentFrame :=
  {| cf_id := Allocated 2; GetComponent := drift 1 (2%Q);
     IsComponent := true |}.

Definition drift1 : ComponentFrame :=
  {| cf_id := Allocated 4; GetComponent := drift 3 (3 # 2)%Q;
     IsComponent := true |}.

(** A sub-tree with two occurrences, built by the caller. *)
Definition occurrence_a : ComponentFrame :=
  {| cf_id := Client 11;
     GetComponent := {| component_id := Client 10;
                        component_type := "Quadrupole";
                        component_name := "QA";
                        component_length := 1%Q |};
     IsComponent := true |}.

Definition occurrence_b : ComponentFrame :=
  {| cf_id := Client 13;
     GetComponent := {| component_id := Client 12;
                        component_type := "Quadrupole";
                        component_name := "QB";
                        component_length := 1%Q |};
     IsComponent := true |}.

Definition subtree : SequenceFrame :=
  {| sf_id := Client 14; sf_name := "S"; sf_origin := originAtEntrance;
     sf_consolidated := false;
     subFrames := [AComponentFrame occurrence_a;
                   AComponentFrame occurrence_b] |}.

(** Two occurrences of the one component [Q1], in two frames. *)
Definition shared_1 : ComponentFrame :=
  {| cf_id := Client 20; GetComponent := Q1; IsComponent := true |}.

Definition shared_2 : ComponentFrame :=
  {| cf_id := Client 21; GetComponent := Q1; IsComponent := true |}.

Definition shared_calls : list call :=
  [ CallAppendComponentFrame shared_1;
    CallNewFrame (Some F1);
    CallAppendComponentFrame shared_2;
    CallEndFrame ].

(** An occurrence that refers to [Q1] without carrying it. *)
Definition reusing : ComponentFrame :=
  {| cf_id := Client 22; GetComponent := Q1; IsComponent := false |}.

(** Another frame of the caller. *)
Definition F2 : SequenceFrame :=
  {| sf_id := Client 30; sf_name := "F2"; sf_origin := originAtEntrance;
     sf_consolidated := false; subFrames := [] |}.

(** The new model of a new constructor. *)
Definition new_model : AcceleratorModel :=
  {| globalFrame :=
       {| sf_id := Allocated 0; sf_name := "GLOBAL";
          sf_origin := originAtEntrance; sf_consolidated := false;
          subFrames := [] |};
     theElements := ∅; lattice := [] |}.

(** The state a run ends in, for a run that returns. *)
Definition state_after (cs : list call) : state :=
  match run cs (construct ∅) with
  | Ok s => s
  | _ => construct ∅
  end.

End Scenario.

(** ** The registry *)

Lemma Add_dom (e : ModelElement) (r : ElementRepository) :
  dom (Add e r) = {[element_id e]} ∪ dom r.
Proof.
  unfold Add. destruct (r !! element_id e) eqn:E.
  - assert (element_id e ∈ dom r) by (apply elem_of_dom; eauto). set_solver.
  - apply dom_insert_L.
Qed.

Lemma Add_registered (e : ModelElement) (r : ElementRepository) :
  element_id e ∈ dom r → Add e r = r.
Proof.
  intros [v Hv]%elem_of_dom. unfold Add. by rewrite Hv.
Qed.

Lemma Add_registers (e : ModelElement) (r : ElementRepository) :
  element_id e ∈ dom (Add e r).
Proof. rewrite Add_dom. set_solver. Qed.

Lemma Add_twice (e : ModelElement) (r : ElementRepository) :
  Add e (Add e r) = Add e r.
Proof. apply Add_registered, Add_registers. Qed.

Lemma Size_Add (e : ModelElement) (r : ElementRepository) :
  Size (Add e r) =
  if decide (element_id e ∈ dom r) then Size r else Datatypes.S (Size r).
Proof.
  case_decide as H.
  - by rewrite Add_registered.
  - unfold Add, Size. apply not_elem_of_dom in H. rewrite H.
    by apply map_size_insert_None.
Qed.

Lemma Size_dom (r : ElementRepository) : Size r = size (dom r).
Proof. unfold Size. symmetry. apply size_dom. Qed.

(** ** The traversal *)

Lemma Traverse_children {S : Type} (act : LatticeFrame → S → S)
    (children : list LatticeFrame) :
  Forall (λ frame, ∀ st,
            Traverse act frame st =
            fold_left (λ acc x, act x acc) (preorder frame) st) children →
  ∀ st, fold_left (λ acc child, Traverse act child acc) children st =
        fold_left (λ acc x, act x acc) (flat_map preorder children) st.
Proof.
  induction 1 as [|child children Hchild _ IH]; intros st; [done|].
  cbn [fold_left flat_map]. rewrite fold_left_app, Hchild. apply IH.
Qed.

(** The traversal acts on the frames in pre-order. *)
Lemma Traverse_preorder {S : Type} (act : LatticeFrame → S → S)
    (frame : LatticeFrame) :
  ∀ st, Traverse act frame st =
        fold_left (λ acc x, act x acc) (preorder frame) st.
Proof.
  induction frame as [id name origin c children IH|cf]
    using LatticeFrame_nested_ind; intros st; [|done].
  cbn [Traverse preorder fold_left]. by apply Traverse_children.
Qed.

Lemma flatten_preorder (frame : LatticeFrame) :
  omap dynamic_cast_ComponentFrame (preorder frame) = flatten frame.
Proof.
  induction frame as [id name origin c children IH|cf]
    using LatticeFrame_nested_ind; [|done].
  cbn [preorder flatten omap list_omap dynamic_cast_ComponentFrame].
  induction IH as [|child children Hchild _ IH']; [done|].
  cbn [flat_map]. by rewrite omap_app, Hchild, IH'.
Qed.

Lemma ActOn_lattice (frame : LatticeFrame) (mx : MEExtractor) :
  mx_lattice (ActOn frame mx) =
  mx_lattice mx ++ option_list (dynamic_cast_ComponentFrame frame).
Proof.
  unfold ActOn. destruct (dynamic_cast_ComponentFrame frame); simpl; [done|].
  by rewrite app_nil_r.
Qed.

Lemma ActOn_erepo_dom (frame : LatticeFrame) (mx : MEExtractor) :
  dom (erepo (ActOn frame mx)) =
  dom (erepo mx) ∪ list_to_set (registered_by_visit frame).
Proof.
  unfold ActOn, registered_by_visit.
  destruct (dynamic_cast_ComponentFrame frame) as [cf|]; simpl;
    rewrite ?Add_dom; destruct frame; simpl; set_solver.
Qed.

Lemma visits_lattice (frames : list LatticeFrame) :
  ∀ mx, mx_lattice (fold_left (λ acc x, ActOn x acc) frames mx) =
        mx_lattice mx ++ omap dynamic_cast_ComponentFrame frames.
Proof.
  induction frames as [|frame frames IH]; intros mx; simpl.
  - by rewrite app_nil_r.
  - rewrite IH, ActOn_lattice, <- app_assoc.
    by destruct (dynamic_cast_ComponentFrame frame).
Qed.

Lemma visits_erepo_dom (frames : list LatticeFrame) :
  ∀ mx, dom (erepo (fold_left (λ acc x, ActOn x acc) frames mx)) =
        dom (erepo mx) ∪ list_to_set (flat_map registered_by_visit frames).
Proof.
  induction frames as [|frame frames IH]; intros mx.
  - simpl. set_solver.
  - cbn [fold_left flat_map]. rewrite IH, ActOn_erepo_dom, list_to_set_app_L.
    set_solver.
Qed.

(** The lattice after a traversal: the frame flattened, spliced in. *)
Lemma Traverse_lattice (frame : LatticeFrame) (mx : MEExtractor) :
  mx_lattice (Traverse ActOn frame mx) = mx_lattice mx ++ flatten frame.
Proof. by rewrite Traverse_preorder, visits_lattice, flatten_preorder. Qed.

Lemma Traverse_erepo_dom (frame : LatticeFrame) (mx : MEExtractor) :
  dom (erepo (Traverse ActOn frame mx)) =
  dom (erepo mx) ∪
  list_to_set (flat_map registered_by_visit (preorder frame)).
Proof. by rewrite Traverse_preorder, visits_erepo_dom. Qed.

(** ** What each operation does to the members *)

#[local] Arguments Traverse : simpl never.
#[local] Arguments upcast : simpl never.

Lemma drain_empty (st : list FramePtr) : drain st = [].
Proof. induction st; auto. Qed.

Lemma bind_Ok {A B : Type} (x : outcome A) (k : A → outcome B) (b : B) :
  (x ≫= k) = Ok b ↔ ∃ a, x = Ok a ∧ k a = Ok b.
Proof.
  destruct x; simpl; split; try (intros (? & ? & ?)); eauto; try done.
  congruence.
Qed.

(** Appending a child to the top frame touches nothing but that frame. *)
Lemma top_AppendFrame_Ok (child : LatticeFrame) (s s' : state) :
  top_AppendFrame child s = Ok s' →
  theElements <$> currentModel s' = theElements <$> currentModel s ∧
  lattice <$> currentModel s' = lattice <$> currentModel s ∧
  length (frameStack s') = length (frameStack s) ∧
  blI s' = blI s ∧ brk s' = brk s ∧
  top_frame s' = (f ← top_frame s; Ok (SequenceFrame_AppendFrame child f)).
Proof.
  unfold top_AppendFrame, top_frame. destruct s as [cm st mem n del]; simpl.
  destruct st as [|[|f] rest]; [done| |].
  - destruct cm as [m|]; [|done]. intros [= <-]. by simpl.
  - intros [= <-]. by simpl.
Qed.

Lemma top_AppendFrame_defined (child : LatticeFrame) (s : state) :
  is_Some (currentModel s) → frameStack s ≠ [] →
  ∃ s', top_AppendFrame child s = Ok s'.
Proof.
  unfold top_AppendFrame. intros [m Hm] Hst. rewrite Hm.
  destruct (frameStack s) as [|[|f] rest]; [done| |]; eauto.
Qed.

Lemma top_frame_ext (s s' : state) :
  frameStack s' = frameStack s →
  globalFrame <$> currentModel s' = globalFrame <$> currentModel s →
  top_frame s' = top_frame s.
Proof.
  unfold top_frame. intros -> Hg. destruct (frameStack s) as [|[|f] rest];
    simpl; try done.
  destruct (currentModel s'), (currentModel s); simpl in *; congruence.
Qed.

Lemma AppendComponentFrame_Ok (cf : ComponentFrame) (s s' : state) :
  AppendComponentFrame cf s = Ok s' →
  ∃ m m', currentModel s = Some m ∧ currentModel s' = Some m' ∧
    lattice m' = lattice m ++ [cf] ∧
    theElements m' =
      (if IsComponent cf
       then Add (component_element (GetComponent cf))
              (Add (occurrence_element cf) (theElements m))
       else Add (occurrence_element cf) (theElements m)) ∧
    length (frameStack s') = length (frameStack s) ∧
    blI s' = <[cf_id cf := length (lattice m)]> (blI s) ∧
    brk s' = brk s ∧
    top_frame s' =
      (f ← top_frame s; Ok (SequenceFrame_AppendFrame (AComponentFrame cf) f)).
Proof.
  unfold AppendComponentFrame. destruct (currentModel s) as [m|] eqn:Hm;
    [|done].
  intros (s1 & H1 & [= <-])%bind_Ok.
  apply top_AppendFrame_Ok in H1 as (He & Hl & Hst & Hmem & Hn & Htop).
  simpl in He, Hl, Hst, Hmem, Hn.
  destruct (currentModel s1) as [m1|] eqn:Hm1; [|done].
  injection He as He. injection Hl as Hl.
  exists m, m1. repeat split; try done.
  - simpl. rewrite Hmem. f_equal. rewrite length_app. simpl. lia.
  - rewrite (top_frame_ext s1) by done. rewrite Htop. f_equal.
    apply top_frame_ext; simpl; [done|]. by rewrite Hm.
Qed.

Lemma AppendComponentFrame_defined (cf : ComponentFrame) (s : state) :
  is_Some (currentModel s) → frameStack s ≠ [] →
  ∃ s', AppendComponentFrame cf s = Ok s'.
Proof.
  intros [m Hm] Hst. unfold AppendComponentFrame. rewrite Hm.
  edestruct top_AppendFrame_defined as [s1 H1]; [| |rewrite H1; simpl; eauto];
    simpl; eauto.
Qed.

Lemma AppendFrame_Ok (aFrame : SequenceFrame) (s s' : state) :
  AppendFrame aFrame s = Ok s' →
  ∃ m m', currentModel s = Some m ∧ currentModel s' = Some m' ∧
    lattice m' = lattice m ++ flatten (upcast aFrame) ∧
    dom (theElements m') =
      dom (theElements m) ∪
      list_to_set (flat_map registered_by_visit (preorder (upcast aFrame))) ∧
    length (frameStack s') = length (frameStack s) ∧
    blI s' = blI s ∧ brk s' = brk s ∧
    top_frame s' =
      (f ← top_frame s; Ok (SequenceFrame_AppendFrame (upcast aFrame) f)).
Proof.
  unfold AppendFrame. destruct (currentModel s) as [m|] eqn:Hm; [|done].
  intros (He & Hl & Hst & Hmem & Hn & Htop)%top_AppendFrame_Ok.
  simpl in He, Hl, Hst, Hmem, Hn.
  destruct (currentModel s') as [m'|] eqn:Hm'; [|done].
  injection He as He. injection Hl as Hl.
  exists m, m'. repeat split; try done.
  - by rewrite Hl, Traverse_lattice.
  - by rewrite He, Traverse_erepo_dom.
  - rewrite Htop. f_equal. apply top_frame_ext; simpl; [done|].
    by rewrite Hm.
Qed.

Lemma AppendFrame_defined (aFrame : SequenceFrame) (s : state) :
  is_Some (currentModel s) → frameStack s ≠ [] →
  ∃ s', AppendFrame aFrame s = Ok s'.
Proof.
  intros [m Hm] Hst. unfold AppendFrame. rewrite Hm.
  apply top_AppendFrame_defined; simpl; eauto.
Qed.

Lemma AppendDrift_Ok (d : Q) (s s' : state) :
  AppendDrift d s = Ok s' →
  ∃ m m', currentModel s = Some m ∧ currentModel s' = Some m' ∧
    length (lattice m') = Datatypes.S (length (lattice m)) ∧
    dom (theElements m') =
      dom (theElements m) ∪
      {[Allocated (Datatypes.S (brk s)); Allocated (brk s)]} ∧
    length (frameStack s') = length (frameStack s) ∧
    brk s' = Datatypes.S (Datatypes.S (brk s)).
Proof.
  unfold AppendDrift.
  intros (m & m' & Hm & Hm' & Hl & He & Hst & _ & Hn & _)%
    AppendComponentFrame_Ok.
  simpl in *. exists m, m'. repeat split; try done.
  - rewrite Hl, length_app. simpl. lia.
  - rewrite He, !Add_dom. simpl. set_solver.
Qed.

Lemma AppendDrift_defined (d : Q) (s : state) :
  is_Some (currentModel s) → frameStack s ≠ [] →
  ∃ s', AppendDrift d s = Ok s'.
Proof. intros. by apply AppendComponentFrame_defined. Qed.

Lemma EndFrame_Ok (s s' : state) :
  EndFrame s = Ok s' →
  theElements <$> currentModel s' = theElements <$> currentModel s ∧
  lattice <$> currentModel s' = lattice <$> currentModel s ∧
  Datatypes.S (length (frameStack s')) = length (frameStack s) ∧
  blI s' = blI s ∧ brk s' = brk s.
Proof.
  unfold EndFrame. destruct (frameStack s) as [|cf [|p rest]]; try done.
  intros (f & _ & H)%bind_Ok.
  apply top_AppendFrame_Ok in H as (He & Hl & Hst & Hmem & Hn & _).
  simpl in *. repeat split; try done. by rewrite Hst.
Qed.

Lemma EndFrame_defined (s : state) :
  is_Some (currentModel s) → 2 ≤ length (frameStack s) →
  ∃ s', EndFrame s = Ok s'.
Proof.
  intros [m Hm] Hst. unfold EndFrame.
  destruct (frameStack s) as [|cf [|p rest]]; simpl in Hst; try lia.
  assert (∃ f, deref cf s = Ok f) as [f ->].
  { destruct cf; simpl; rewrite ?Hm; eauto. }
  simpl. apply top_AppendFrame_defined; simpl; [eauto|done].
Qed.

(** A call of one construction, when it returns, keeps the model and adds
    to the registry the addresses it hands over. *)
Lemma step_construction_Ok (c : call) (s s' : state) (m : AcceleratorModel) :
  construction_call c = true →
  currentModel s = Some m →
  step c s = Ok s' →
  ∃ m', currentModel s' = Some m' ∧
    length (lattice m') = length (lattice m) + occurrences_of_call c ∧
    dom (theElements m') =
      dom (theElements m) ∪ list_to_set (registered_by_call c (brk s)) ∧
    brk s' = allocated_by_call c + brk s.
Proof.
  intros Hc Hm. destruct c as [| |[f|]| |d|e|f|cf]; try done; simpl.
  - unfold NewFrame. rewrite Hm. intros [= <-]. simpl. eexists.
    repeat split; simpl; [lia|]. rewrite Add_dom. simpl. set_solver.
  - unfold NewFrame. by rewrite Hm.
  - intros (He & Hl & _ & _ & Hn)%EndFrame_Ok. rewrite Hm in He, Hl.
    destruct (currentModel s') as [m'|]; [|done]. simpl in *.
    injection He as He. injection Hl as Hl. exists m'.
    repeat split; [rewrite Hl; lia|rewrite He; set_solver|done].
  - intros (m0 & m' & Hm0 & Hm' & Hl & He & _ & Hn)%AppendDrift_Ok.
    rewrite Hm in Hm0. injection Hm0 as <-. exists m'.
    repeat split; [done|lia| |done]. rewrite He. set_solver.
  - unfold AddModelElement. rewrite Hm. intros [= <-]. simpl. eexists.
    repeat split; simpl; [lia|]. rewrite Add_dom. set_solver.
  - intros (m0 & m' & Hm0 & Hm' & Hl & He & _ & _ & Hn & _)%AppendFrame_Ok.
    rewrite Hm in Hm0. injection Hm0 as <-. exists m'.
    repeat split; [done| |done|done]. by rewrite Hl, length_app.
  - intros (m0 & m' & Hm0 & Hm' & Hl & He & _ & _ & Hn & _)%
      AppendComponentFrame_Ok.
    rewrite Hm in Hm0. injection Hm0 as <-. exists m'.
    repeat split; [done| | |done].
    + rewrite Hl, length_app. simpl. lia.
    + rewrite He. destruct (IsComponent cf); rewrite !Add_dom; simpl;
        set_solver.
Qed.

Lemma step_depth (c : call) (s s' : state) :
  construction_call c = true → step c s = Ok s' →
  length (frameStack s') = depth_after c (length (frameStack s)).
Proof.
  intros Hc. destruct c as [| |[f|]| |d|e|f|cf]; try done; simpl.
  - unfold NewFrame. destruct (currentModel s); [|done]. by intros [= <-].
  - unfold NewFrame. by destruct (currentModel s).
  - intros (_ & _ & <- & _)%EndFrame_Ok. done.
  - by intros (m0 & m' & _ & _ & _ & _ & ? & _)%AppendDrift_Ok.
  - unfold AddModelElement. destruct (currentModel s); [|done].
    by intros [= <-].
  - by intros (m0 & m' & _ & _ & _ & _ & ? & _)%AppendFrame_Ok.
  - by intros (m0 & m' & _ & _ & _ & _ & ? & _)%AppendComponentFrame_Ok.
Qed.

(** With a model in progress, a call of one construction returns as soon
    as the stack is deep enough for it. *)
Lemma step_construction_defined (c : call) (s : state) :
  construction_call c = true → c ≠ CallNewFrame None →
  is_Some (currentModel s) →
  depth_needed c ≤ length (frameStack s) →
  ∃ s', step c s = Ok s'.
Proof.
  intros Hc Hnull [m Hm] Hst.
  assert (frameStack s ≠ []) as Hne.
  { destruct (frameStack s); [|done]. destruct c; simpl in Hst; lia. }
  destruct c as [| |[f|]| |d|e|f|cf]; try done; simpl.
  - unfold NewFrame. rewrite Hm. eauto.
  - apply EndFrame_defined; eauto.
  - apply AppendDrift_defined; eauto.
  - unfold AddModelElement. rewrite Hm. eauto.
  - apply AppendFrame_defined; eauto.
  - apply AppendComponentFrame_defined; eauto.
Qed.

Lemma top_frame_defined (s : state) :
  is_Some (currentModel s) → frameStack s ≠ [] → ∃ f, top_frame s = Ok f.
Proof.
  intros [m Hm] Hst. unfold top_frame.
  destruct (frameStack s) as [|[|f] rest]; [done| |]; simpl; rewrite ?Hm;
    eauto.
Qed.

Lemma replay_splices (occurrences : list ComponentFrame) :
  ∀ s m, currentModel s = Some m → frameStack s ≠ [] →
    ∃ s' m', replay occurrences s = Ok s' ∧ currentModel s' = Some m' ∧
      lattice m' = lattice m ++ occurrences.
Proof.
  induction occurrences as [|cf rest IH]; intros s m Hm Hst; simpl.
  - exists s, m. by rewrite app_nil_r.
  - destruct (AppendComponentFrame_defined cf s) as [s1 H1]; [eauto|done|].
    rewrite H1. simpl.
    apply AppendComponentFrame_Ok in H1
      as (m0 & m1 & Hm0 & Hm1 & Hl & _ & Hlen & _).
    rewrite Hm in Hm0. injection Hm0 as <-.
    destruct (IH s1 m1) as (s' & m' & Hrun & Hm' & Hl'); [done| |].
    { destruct (frameStack s1), (frameStack s); simpl in Hlen; done. }
    exists s', m'. repeat split; [done..|].
    by rewrite Hl', Hl, <- app_assoc.
Qed.

Lemma balanced_from_cons (depth : nat) (c : call) (cs : list call) :
  balanced_from depth (c :: cs) = true →
  construction_call c = true ∧ c ≠ CallNewFrame None ∧
  depth_needed c ≤ Datatypes.S depth ∧
  ∃ depth', depth_after c (Datatypes.S depth) = Datatypes.S depth' ∧
            balanced_from depth' cs = true.
Proof.
  destruct c as [| |[f|]| |d|e|f|cf]; simpl; try done;
    try (by intros; split_and!; [done|done|lia|eauto]).
  destruct depth as [|depth]; [done|].
  intros. split_and!; [done|done|lia|eauto].
Qed.

Lemma run_balanced (cs : list call) :
  ∀ depth s m,
    currentModel s = Some m →
    length (frameStack s) = Datatypes.S depth →
    balanced_from depth cs = true →
    ∃ s' m', run cs s = Ok s' ∧ currentModel s' = Some m' ∧
      length (frameStack s') = 1 ∧
      length (lattice m') = length (lattice m) + occurrences_appended cs.
Proof.
  induction cs as [|c cs IH]; intros depth s m Hm Hst Hb.
  - simpl in Hb. apply bool_decide_eq_true in Hb as ->.
    exists s, m. unfold occurrences_appended. simpl.
    repeat split; [done..|lia].
  - apply balanced_from_cons in Hb as (Hc & Hnull & Hneed & depth' & Hd & Hb).
    destruct (step_construction_defined c s) as [s1 H1];
      [done|done|eauto|lia|].
    destruct (step_construction_Ok c s s1 m) as (m1 & Hm1 & Hl & _);
      [done..|].
    pose proof (step_depth c s s1 Hc H1) as Hst1. rewrite Hst, Hd in Hst1.
    destruct (IH depth' s1 m1) as (s' & m' & Hrun & Hm' & Hst' & Hl');
      [done..|].
    exists s', m'. simpl. rewrite H1. simpl.
    repeat split; [done..|]. rewrite Hl', Hl.
    change (occurrences_appended (c :: cs))
      with (occurrences_of_call c + occurrences_appended cs). lia.
Qed.

(** ** The states the program can be in *)

Lemma top_AppendFrame_root (child : LatticeFrame) (s s' : state) :
  top_AppendFrame child s = Ok s' →
  sf_id ∘ globalFrame <$> currentModel s' =
  sf_id ∘ globalFrame <$> currentModel s.
Proof.
  unfold top_AppendFrame. destruct s as [cm st mem n del]; simpl.
  destruct st as [|[|f] rest]; [done| |].
  - destruct cm as [m|]; [|done]. by intros [= <-].
  - by intros [= <-].
Qed.

Lemma step_root (c : call) (s s' : state) :
  construction_call c = true → step c s = Ok s' →
  sf_id ∘ globalFrame <$> currentModel s' =
  sf_id ∘ globalFrame <$> currentModel s.
Proof.
  intros Hc. destruct c as [| |[f|]| |d|e|f|cf]; try done; simpl.
  - unfold NewFrame. destruct (currentModel s); [|done]. by intros [= <-].
  - unfold NewFrame. by destruct (currentModel s).
  - unfold EndFrame. destruct (frameStack s) as [|p [|q rest]]; try done.
    intros (f & _ & H)%bind_Ok. by apply top_AppendFrame_root in H.
  - unfold AppendDrift, AppendComponentFrame. simpl.
    destruct (currentModel s); [|done].
    intros (s1 & H & [= <-])%bind_Ok. by apply top_AppendFrame_root in H.
  - unfold AddModelElement. destruct (currentModel s); [|done].
    by intros [= <-].
  - unfold AppendFrame. destruct (currentModel s); [|done].
    intros H. by apply top_AppendFrame_root in H.
  - unfold AppendComponentFrame. destruct (currentModel s); [|done].
    intros (s1 & H & [= <-])%bind_Ok. by apply top_AppendFrame_root in H.
Qed.

Lemma top_AppendFrame_kinds (child : LatticeFrame) (s s' : state) :
  top_AppendFrame child s = Ok s' →
  is_global <$> frameStack s' = is_global <$> frameStack s.
Proof.
  unfold top_AppendFrame. destruct s as [cm st mem n del]; simpl.
  destruct st as [|[|f] rest]; [done| |].
  - destruct cm as [m|]; [|done]. by intros [= <-].
  - by intros [= <-].
Qed.

(** The kinds of the entries of the stack after a call. *)
Lemma step_kinds (c : call) (s s' : state) :
  construction_call c = true → step c s = Ok s' →
  is_global <$> frameStack s' =
  match c with
  | CallNewFrame _ => false :: (is_global <$> frameStack s)
  | CallEndFrame => tail (is_global <$> frameStack s)
  | _ => is_global <$> frameStack s
  end.
Proof.
  intros Hc. destruct c as [| |[f|]| |d|e|f|cf]; try done; simpl.
  - unfold NewFrame. destruct (currentModel s); [|done]. by intros [= <-].
  - unfold NewFrame. by destruct (currentModel s).
  - unfold EndFrame. destruct (frameStack s) as [|p [|q rest]]; try done.
    intros (f & _ & H)%bind_Ok. by apply top_AppendFrame_kinds in H.
  - unfold AppendDrift, AppendComponentFrame. simpl.
    destruct (currentModel s); [|done].
    intros (s1 & H & [= <-])%bind_Ok. by apply top_AppendFrame_kinds in H.
  - unfold AddModelElement. destruct (currentModel s); [|done].
    by intros [= <-].
  - unfold AppendFrame. destruct (currentModel s); [|done].
    intros H. by apply top_AppendFrame_kinds in H.
  - unfold AppendComponentFrame. destruct (currentModel s); [|done].
    intros (s1 & H & [= <-])%bind_Ok. by apply top_AppendFrame_kinds in H.
Qed.

Lemma step_rooted (c : call) (s s' : state) :
  construction_call c = true → step c s = Ok s' →
  rooted (frameStack s) → rooted (frameStack s').
Proof.
  intros Hc Hstep [n Hn]. unfold rooted.
  rewrite (step_kinds c s s' Hc Hstep), Hn.
  destruct c as [| |[f|]| |d|e|f|cf]; try done; eauto.
  - by exists (Datatypes.S n).
  - by exists (Datatypes.S n).
  - simpl in Hstep. unfold EndFrame in Hstep.
    destruct (frameStack s) as [|p [|q rest]]; try done.
    destruct n as [|n]; [done|]. by exists n.
Qed.

Lemma invariant_NewModel (s : state) :
  (currentModel s = None → frameStack s = []) → invariant (NewModel s).
Proof.
  intros Hnone. split_and!; [done| |].
  - simpl. intros m [= <-]. simpl. eauto with lia.
  - intros _. exists 0. simpl. destruct (currentModel s).
    + by rewrite drain_empty.
    + by rewrite Hnone.
Qed.

Lemma invariant_step (c : call) (s s' : state) :
  invariant s → step c s = Ok s' → invariant s'.
Proof.
  intros (Hnone & Hroot & Hrooted) Hstep.
  destruct (construction_call c) eqn:Hc.
  - destruct (currentModel s) as [m|] eqn:Hm.
    + destruct (step_construction_Ok c s s' m) as (m' & Hm' & _ & _ & Hn);
        [done..|].
      pose proof (step_root c s s' Hc Hstep) as Hid.
      rewrite Hm, Hm' in Hid. injection Hid as Hid.
      split_and!; [by rewrite Hm'| |].
      * intros m0. rewrite Hm'. intros [= <-].
        destruct (Hroot m) as (n & Hn0 & Hlt); [done|].
        exists n. split; [congruence|lia].
      * intros _. eapply step_rooted; eauto.
    + exfalso. destruct c as [| |[f|]| |d|e|f|cf]; try done; simpl in Hstep.
      * unfold NewFrame in Hstep. by rewrite Hm in Hstep.
      * unfold NewFrame in Hstep. by rewrite Hm in Hstep.
      * unfold EndFrame in Hstep. by rewrite Hnone in Hstep.
      * unfold AppendDrift, AppendComponentFrame in Hstep. simpl in Hstep.
        by rewrite Hm in Hstep.
      * unfold AddModelElement in Hstep. by rewrite Hm in Hstep.
      * unfold AppendFrame in Hstep. by rewrite Hm in Hstep.
      * unfold AppendComponentFrame in Hstep. by rewrite Hm in Hstep.
  - destruct c; try done; simpl in Hstep.
    + injection Hstep as <-. by apply invariant_NewModel.
    + apply bind_Ok in Hstep as ([M s1] & Hget & [= <-]).
      unfold GetModel in Hget.
      destruct (frameStack s) as [|p [|q rest]]; try done;
        destruct (currentModel s); try done.
      injection Hget as _ <-. split_and!; [done|done|].
      simpl. by intros [? ?].
Qed.

Lemma invariant_run (cs : list call) :
  ∀ s s', invariant s → run cs s = Ok s' → invariant s'.
Proof.
  induction cs as [|c cs IH]; intros s s' Hs; simpl.
  - by intros [= <-].
  - intros (s1 & H1 & Hrun)%bind_Ok. eauto using invariant_step.
Qed.

Lemma reachable_invariant (s : state) : reachable s → invariant s.
Proof.
  intros (mem & cs & Hrun).
  eapply invariant_run; [|exact Hrun]. by apply invariant_NewModel.
Qed.

Lemma reachable_construct (mem : gmap addr nat) : reachable (construct mem).
Proof. by exists mem, []. Qed.

Lemma run_app (cs1 cs2 : list call) (s : state) :
  run (cs1 ++ cs2) s = (s' ← run cs1 s; run cs2 s').
Proof.
  revert s. induction cs1 as [|c cs1 IH]; intros s; simpl; [done|].
  destruct (step c s); simpl; auto.
Qed.

Lemma reachable_run (cs : list call) (s s' : state) :
  reachable s → run cs s = Ok s' → reachable s'.
Proof.
  intros (mem & cs0 & H0) Hrun. exists mem, (cs0 ++ cs).
  rewrite run_app, H0. exact Hrun.
Qed.

(** ** The beamline index *)

(** The direct path: the occurrence lands at the end of the lattice and
    its index is the position it has there. *)
Lemma AppendComponentFrame_index (cf : ComponentFrame) (s s' : state)
    (m : AcceleratorModel) :
  currentModel s = Some m → AppendComponentFrame cf s = Ok s' →
  ∃ m', currentModel s' = Some m' ∧
    lattice m' !! length (lattice m) = Some cf ∧
    GetBeamlineIndex s' cf = Some (length (lattice m)).
Proof.
  intros Hm (m0 & m' & Hm0 & Hm' & Hl & _ & _ & Hmem & _)%
    AppendComponentFrame_Ok.
  rewrite Hm in Hm0. injection Hm0 as <-. exists m'.
  split; [done|]. split.
  - rewrite Hl. by apply list_lookup_middle.
  - unfold GetBeamlineIndex. rewrite Hmem. apply lookup_insert_eq.
Qed.

(** What a run of direct calls keeps: the lattice is indexed, the frames
    in it that the constructor allocated are below [brk], and none of them
    is among the frames still to be handed over. *)
Lemma direct_step_indexed (c : call) (cs : list call) (s s' : state)
    (m : AcceleratorModel) :
  direct_call c = true →
  NoDup (appended_directly (c :: cs)) →
  (∀ a, a ∈ appended_directly cs → is_client a = true) →
  currentModel s = Some m →
  indexed s m →
  (∀ cf n, cf ∈ lattice m → cf_id cf = Allocated n → n < brk s) →
  (∀ cf, cf ∈ lattice m → cf_id cf ∉ appended_directly (c :: cs)) →
  step c s = Ok s' →
  ∃ m', currentModel s' = Some m' ∧ indexed s' m' ∧
    (∀ cf n, cf ∈ lattice m' → cf_id cf = Allocated n → n < brk s') ∧
    (∀ cf, cf ∈ lattice m' → cf_id cf ∉ appended_directly cs).
Proof.
  intros Hc Hnd Hcl Hm Hix Hbrk Hnew Hstep.
  assert (∀ cf (s1 : state) m1,
            lattice m1 = lattice m ++ [cf] →
            blI s1 = <[cf_id cf := length (lattice m)]> (blI s) →
            (∀ cf', cf' ∈ lattice m → cf_id cf' ≠ cf_id cf) →
            indexed s1 m1) as Hpush.
  { intros cf s1 m1 Hl Hmem Hfresh i cf' Hi.
    unfold GetBeamlineIndex. rewrite Hmem. rewrite Hl in Hi.
    apply lookup_app_Some in Hi as [Hi|[Hge Hi]].
    - rewrite lookup_insert_ne; [by apply Hix|].
      intros Heq. eapply Hfresh; [|by symmetry].
      by eapply list_elem_of_lookup_2.
    - apply list_lookup_singleton_Some in Hi as [Hi <-].
      rewrite lookup_insert_eq. f_equal. lia. }
  destruct c as [| |[f|]| |d|e|f|cf]; try done; simpl in Hstep.
  - unfold NewFrame in Hstep. rewrite Hm in Hstep. injection Hstep as <-.
    eexists. split; [done|]. by split_and!.
  - unfold NewFrame in Hstep. by rewrite Hm in Hstep.
  - apply EndFrame_Ok in Hstep as (_ & Hl & _ & Hmem & Hn).
    rewrite Hm in Hl. destruct (currentModel s') as [m'|]; [|done].
    injection Hl as Hl. exists m'. split; [done|].
    unfold indexed, GetBeamlineIndex. rewrite Hl, Hmem, Hn. by split_and!.
  - unfold AppendDrift in Hstep.
    apply AppendComponentFrame_Ok in Hstep
      as (m0 & m' & Hm0 & Hm' & Hl & _ & _ & Hmem & Hn & _).
    simpl in Hm0, Hl, Hmem, Hn. rewrite Hm in Hm0. injection Hm0 as <-.
    exists m'. split; [done|]. split_and!.
    + apply (Hpush _ s' m' Hl Hmem).
      intros cf' Hin Heq. simpl in Heq. apply Hbrk in Heq; [lia|done].
    + intros cf' n. rewrite Hl, Hn, elem_of_app, list_elem_of_singleton.
      intros [Hin| ->] Hid.
      * apply Hbrk in Hid; [lia|done].
      * simpl in Hid. injection Hid as <-. lia.
    + intros cf'. rewrite Hl, elem_of_app, list_elem_of_singleton.
      intros [Hin| ->]; [by apply Hnew|]. simpl.
      intros Hin%Hcl. done.
  - unfold AddModelElement in Hstep. rewrite Hm in Hstep.
    injection Hstep as <-. eexists. split; [done|]. by split_and!.
  - apply AppendComponentFrame_Ok in Hstep
      as (m0 & m' & Hm0 & Hm' & Hl & _ & _ & Hmem & Hn & _).
    rewrite Hm in Hm0. injection Hm0 as <-. simpl in Hnd, Hnew.
    apply NoDup_cons in Hnd as [Hnotin Hnd].
    exists m'. split; [done|]. split_and!.
    + apply (Hpush _ s' m' Hl Hmem).
      intros cf' Hin Heq. apply (Hnew cf' Hin). rewrite Heq. by left.
    + intros cf' n. rewrite Hl, Hn, elem_of_app, list_elem_of_singleton.
      intros [Hin| ->] Hid; [by eapply Hbrk|].
      simpl in Hc. by rewrite Hid in Hc.
    + intros cf'. rewrite Hl, elem_of_app, list_elem_of_singleton.
      intros [Hin| ->]; [|done].
      intros Hin'. apply (Hnew cf' Hin). by right.
Qed.

Lemma direct_run_indexed (cs : list call) :
  ∀ s s' m,
    forallb direct_call cs = true →
    NoDup (appended_directly cs) →
    currentModel s = Some m →
    indexed s m →
    (∀ cf n, cf ∈ lattice m → cf_id cf = Allocated n → n < brk s) →
    (∀ cf, cf ∈ lattice m → cf_id cf ∉ appended_directly cs) →
    run cs s = Ok s' →
    ∃ m', currentModel s' = Some m' ∧ indexed s' m'.
Proof.
  induction cs as [|c cs IH]; intros s s' m Hcs Hnd Hm Hix Hbrk Hnew; simpl.
  - intros [= <-]. eauto.
  - simpl in Hcs. apply andb_true_iff in Hcs as [Hc Hcs].
    intros (s1 & H1 & Hrun)%bind_Ok.
    assert (∀ a, a ∈ appended_directly cs → is_client a = true) as Hcl.
    { clear -Hcs. induction cs as [|c cs IH]; [by intros a ?%elem_of_nil|].
      simpl in Hcs. apply andb_true_iff in Hcs as [Hc Hcs].
      destruct c; simpl; try (by apply IH).
      intros a [->|Hin]%elem_of_cons; [done|by apply IH]. }
    destruct (direct_step_indexed c cs s s1 m)
      as (m1 & Hm1 & Hix1 & Hbrk1 & Hnew1); [done..|].
    apply (IH s1 s' m1); try done.
    destruct c; simpl in Hnd; try done. by apply NoDup_cons in Hnd as [_ ?].
Qed.

(** Occurrences appended directly, each of them once, to a new constructor:
    the N-th of them, [AppendDrift]'s included, stores the index N-1, its
    position in the lattice, and keeps it. *)
Lemma direct_construction_indexed (cs : list call) (mem : gmap addr nat)
    (s' : state) :
  forallb direct_call cs = true →
  NoDup (appended_directly cs) →
  run cs (construct mem) = Ok s' →
  ∃ m', currentModel s' = Some m' ∧
    ∀ i cf, lattice m' !! i = Some cf → GetBeamlineIndex s' cf = Some i.
Proof.
  intros Hcs Hnd Hrun.
  eapply (direct_run_indexed cs (construct mem)); try done.
  - by intros cf n ?%elem_of_nil.
  - by intros cf ?%elem_of_nil.
Qed.

(** The traversal never writes an index. *)
Lemma AppendFrame_keeps_indices (aFrame : SequenceFrame) (s s' : state) :
  AppendFrame aFrame s = Ok s' → blI s' = blI s.
Proof. by intros (m & m' & _ & _ & _ & _ & _ & ? & _)%AppendFrame_Ok. Qed.

(** C1, on the code: [AppendFrame] of a sub-tree with the occurrences [a]
    and [b] on a new constructor puts [a] at position 0 and [b] at position
    1 of the lattice and leaves the index stored in each as it was in the
    object memory [mem] before the call; [MEExtractor::ActOn] has no
    [SetBeamlineIndex], which [AppendComponentFrame] has.  The claim asks
    for the indices 0 and 1 whatever [mem] is. *)
Theorem AppendFrame_leaves_beamline_index (mem : gmap addr nat) :
  ∃ s' m',
    AppendFrame Scenario.subtree (construct mem) = Ok s' ∧
    currentModel s' = Some m' ∧
    lattice m' = [Scenario.occurrence_a; Scenario.occurrence_b] ∧
    GetBeamlineIndex s' Scenario.occurrence_a = mem !! Client 11 ∧
    GetBeamlineIndex s' Scenario.occurrence_b = mem !! Client 13.
Proof. do 2 eexists. by split_and!. Qed.

(** The same on a memory where no index was ever written. *)
Lemma AppendFrame_index_unset :
  ∃ s' m',
    AppendFrame Scenario.subtree (construct ∅) = Ok s' ∧
    currentModel s' = Some m' ∧
    lattice m' !! 1 = Some Scenario.occurrence_b ∧
    GetBeamlineIndex s' Scenario.occurrence_b ≠ Some 1.
Proof. do 2 eexists. by split_and!. Qed.

(** ** Balanced constructions *)



(** ** [EndFrame] *)

Lemma rooted_last (st : list FramePtr) :
  rooted st → last st = Some GlobalFramePtr.
Proof.
  intros [n Hn].
  assert (is_global <$> last st = Some true) as Hlast.
  { by rewrite <- fmap_last, Hn, last_snoc. }
  destruct (last st) as [[|f]|]; done.
Qed.

(** In a state the program can be in, an [EndFrame] that returns has
    popped a frame opened by [NewFrame], and the root is still at the
    bottom of the stack. *)
Lemma EndFrame_keeps_root (s s' : state) :
  reachable s → EndFrame s = Ok s' →
  (∃ f rest, frameStack s = OpenFramePtr f :: rest) ∧
  last (frameStack s') = Some GlobalFramePtr.
Proof.
  intros (Hnone & _ & Hrooted)%reachable_invariant Hend.
  assert (is_Some (currentModel s)) as Hm.
  { destruct (currentModel s); [done|]. unfold EndFrame in Hend.
    by rewrite Hnone in Hend. }
  specialize (Hrooted Hm). split.
  - destruct Hrooted as [n Hn]. unfold EndFrame in Hend.
    destruct (frameStack s) as [|[|f] [|q rest]]; try done; [|eauto].
    by destruct n.
  - apply rooted_last. by apply (step_rooted CallEndFrame s s').
Qed.

(** C3, as the claim has it, fails: with only the root open [EndFrame] is
    not stopped by an assertion; it pops the root and takes the top of the
    empty stack, which is undefined. *)
Lemma EndFrame_underflow_not_asserted :
  frameStack (construct ∅) = [GlobalFramePtr] ∧
  EndFrame (construct ∅) = Undefined EmptyStack ∧
  EndFrame (construct ∅) ≠ AssertionFailed.
Proof. by split_and!. Qed.

(** C3, amended: with no frame beneath the top, [EndFrame] never returns a
    state, and what it does is undefined (the top of an empty stack), no
    assertion guards it; with a model in progress and a frame beneath the
    top, it pops the top and appends it as the last child of the frame
    beneath, which stays on the stack with all that is below it; in a state
    the program can be in, an [EndFrame] that returns has popped a frame
    opened by [NewFrame] and left the root at the bottom of the stack. *)
Theorem EndFrame_needs_a_parent (s : state) :
  (length (frameStack s) ≤ 1 → EndFrame s = Undefined EmptyStack) ∧
  (∀ m cf parent rest,
     currentModel s = Some m → frameStack s = cf :: parent :: rest →
     ∃ s' f g,
       deref cf s = Ok f ∧ deref parent s = Ok g ∧
       EndFrame s = Ok s' ∧
       top_frame s' = Ok (SequenceFrame_AppendFrame (upcast f) g) ∧
       tail (frameStack s') = rest ∧
       length (frameStack s') = Datatypes.S (length rest) ∧
       (parent = GlobalFramePtr → frameStack s' = GlobalFramePtr :: rest)) ∧
  (reachable s → ∀ s', EndFrame s = Ok s' →
     (∃ f rest, frameStack s = OpenFramePtr f :: rest) ∧
     last (frameStack s') = Some GlobalFramePtr).
Proof.
  split_and!.
  - unfold EndFrame. destruct (frameStack s) as [|p [|q rest]]; simpl;
      [done|done|lia].
  - intros m cf parent rest Hm Hst. unfold EndFrame, top_frame. rewrite Hst.
    destruct s as [cm st mem n del]. simpl in *. subst cm st.
    destruct cf as [|f], parent as [|g]; simpl;
      eexists _, _, _; by split_and!.
  - intros Hs s'. by apply EndFrame_keeps_root.
Qed.

Lemma EndFrame_needs_a_parent_witness :
  EndFrame (construct ∅) = Undefined EmptyStack ∧
  ∃ s',
    EndFrame (Scenario.state_after
                [CallAppendDrift (2%Q); CallNewFrame (Some Scenario.F1)]) =
      Ok s' ∧
    frameStack s' = [GlobalFramePtr] ∧
    last (frameStack s') = Some GlobalFramePtr.
Proof.
  split.
  - apply (EndFrame_needs_a_parent (construct ∅)). simpl. lia.
  - destruct (EndFrame_needs_a_parent
                (Scenario.state_after
                   [CallAppendDrift (2%Q); CallNewFrame (Some Scenario.F1)]))
      as (_ & Hparent & Hroot).
    edestruct Hparent as (s' & f & g & _ & _ & Hend & _ & _ & _ & Hst);
      [reflexivity|reflexivity|].
    exists s'. split_and!; [exact Hend|by apply Hst|].
    apply Hroot; [|exact Hend].
    exists ∅, [CallAppendDrift (2%Q); CallNewFrame (Some Scenario.F1)].
    reflexivity.
Defined.

(** ** [GetModel] *)

(** With a model in progress and only one frame on the stack, [GetModel]
    pops it, consolidates the global frame, hands the model over and
    clears [currentModel]. *)
Lemma GetModel_root_only (s : state) (m : AcceleratorModel) :
  currentModel s = Some m → length (frameStack s) = 1 →
  ∃ s',
    GetModel s =
      Ok (set_globalFrame (ConsolidateConstruction (globalFrame m)) m, s') ∧
    currentModel s' = None ∧ frameStack s' = [] ∧
    blI s' = blI s ∧ brk s' = brk s.
Proof.
  intros Hm Hst. unfold GetModel. rewrite Hm.
  destruct (frameStack s) as [|p [|q rest]]; try done.
  eexists. by split_and!.
Qed.

(** With more than one frame on the stack the assertion fails. *)
Lemma GetModel_frames_open (s : state) :
  2 ≤ length (frameStack s) → GetModel s = AssertionFailed.
Proof.
  unfold GetModel. destruct (frameStack s) as [|p [|q rest]]; simpl;
    [lia|lia|]. by destruct (currentModel s).
Qed.

(** In a state the program can be in, no model in progress means an empty
    stack, and [GetModel] pops it before it asserts anything. *)
Lemma GetModel_without_model (s : state) :
  reachable s → currentModel s = None → GetModel s = Undefined EmptyStack.
Proof.
  intros (Hnone & _ & _)%reachable_invariant Hm. unfold GetModel.
  by rewrite Hnone.
Qed.

(** C4, on the code: the first [GetModel] on a new constructor returns the
    model, with its global frame consolidated, and clears [currentModel]
    and the stack; a second [GetModel], with no model in progress, is not
    stopped by the assertion: [frameStack.pop()] comes first, on the empty
    stack, which is undefined.  With a frame open besides the root the
    assertion fails. *)
Theorem GetModel_twice_pops_empty_stack (mem : gmap addr nat) :
  ∃ M s',
    GetModel (construct mem) = Ok (M, s') ∧
    sf_consolidated (globalFrame M) = true ∧
    currentModel s' = None ∧ frameStack s' = [] ∧
    GetModel s' = Undefined EmptyStack ∧
    (s1 ← NewFrame (Some Scenario.F1) (construct mem); GetModel s1) =
      AssertionFailed.
Proof. do 2 eexists. by split_and!. Qed.

(** ** [AppendFrame] against flatten-then-splice *)

(** C5: with a model in progress, [AppendFrame] of a sub-tree and the
    replay of its flattened occurrences through [AppendComponentFrame]
    both return, with the same lattice: the lattice before followed by the
    occurrences of the sub-tree in document order; [AppendFrame] also makes
    the sub-tree the last child of the top frame. *)
Theorem AppendFrame_flatten_then_splice (aFrame : SequenceFrame) (s : state)
    (m : AcceleratorModel) :
  currentModel s = Some m → frameStack s ≠ [] →
  ∃ s1 m1 s2 m2 top,
    AppendFrame aFrame s = Ok s1 ∧ currentModel s1 = Some m1 ∧
    flatten_then_splice aFrame s = Ok s2 ∧ currentModel s2 = Some m2 ∧
    lattice m1 = lattice m ++ flatten (upcast aFrame) ∧
    lattice m2 = lattice m1 ∧
    length (lattice m1) = length (lattice m) + length (flatten (upcast aFrame)) ∧
    top_frame s = Ok top ∧
    top_frame s1 = Ok (SequenceFrame_AppendFrame (upcast aFrame) top).
Proof.
  intros Hm Hst.
  destruct (AppendFrame_defined aFrame s) as [s1 H1]; [eauto|done|].
  destruct (replay_splices (flatten (upcast aFrame)) s m)
    as (s2 & m2 & H2 & Hm2 & Hl2); [done..|].
  destruct (top_frame_defined s) as [top Htop]; [eauto|done|].
  pose proof H1 as (m0 & m1 & Hm0 & Hm1 & Hl1 & _ & _ & _ & _ & Htop1)%
    AppendFrame_Ok.
  rewrite Hm in Hm0. injection Hm0 as <-. rewrite Htop in Htop1.
  exists s1, m1, s2, m2, top. split_and!; try done.
  - by rewrite Hl2, Hl1.
  - by rewrite Hl1, length_app.
Qed.

Lemma AppendFrame_flatten_then_splice_witness :
  ∃ s1 m1 s2 m2 top,
    AppendFrame Scenario.subtree (construct ∅) = Ok s1 ∧
    currentModel s1 = Some m1 ∧
    flatten_then_splice Scenario.subtree (construct ∅) = Ok s2 ∧
    currentModel s2 = Some m2 ∧
    lattice m1 = [] ++ flatten (upcast Scenario.subtree) ∧
    lattice m2 = lattice m1 ∧
    length (lattice m1) = 0 + length (flatten (upcast Scenario.subtree)) ∧
    top_frame (construct ∅) = Ok top ∧
    top_frame s1 = Ok (SequenceFrame_AppendFrame (upcast Scenario.subtree) top).
Proof.
  apply (AppendFrame_flatten_then_splice Scenario.subtree (construct ∅)
           Scenario.new_model).
  - reflexivity.
  - simpl. discriminate.
Defined.

(** ** [MEExtractor::ActOn] *)

(** C6: [ActOn] always registers the frame it visits; for a component
    frame it also registers the component and appends the frame at the end
    of the lattice; for any other frame it leaves the lattice alone, and
    there is no failure in either case.  [AppendFrame]'s traversal applies
    it to the frames of the sub-tree in pre-order, so that all of them are
    registered and the component frames are appended in the order they are
    met. *)
Theorem ActOn_registers_and_extracts (frame : LatticeFrame)
    (mx : MEExtractor) :
  frame_id frame ∈ dom (erepo (ActOn frame mx)) ∧
  match dynamic_cast_ComponentFrame frame with
  | Some cf =>
      erepo (ActOn frame mx) =
        Add (component_element (GetComponent cf))
          (Add (occurrence_element cf) (erepo mx)) ∧
      component_id (GetComponent cf) ∈ dom (erepo (ActOn frame mx)) ∧
      mx_lattice (ActOn frame mx) = mx_lattice mx ++ [cf]
  | None =>
      erepo (ActOn frame mx) = Add (frame_element frame) (erepo mx) ∧
      mx_lattice (ActOn frame mx) = mx_lattice mx
  end ∧
  Traverse ActOn frame mx =
    fold_left (λ acc x, ActOn x acc) (preorder frame) mx ∧
  (∀ x, x ∈ preorder frame →
        frame_id x ∈ dom (erepo (Traverse ActOn frame mx))) ∧
  mx_lattice (Traverse ActOn frame mx) = mx_lattice mx ++ flatten frame.
Proof.
  split_and!.
  - rewrite ActOn_erepo_dom. unfold registered_by_visit. set_solver.
  - destruct frame as [id name origin c children|cf]; simpl.
    + done.
    + split_and!; [done| |done]. apply Add_registers.
  - apply Traverse_preorder.
  - intros x Hx. rewrite Traverse_erepo_dom.
    apply elem_of_union_r, elem_of_list_to_set, list_elem_of_In,
      in_flat_map.
    exists x. split; [by apply list_elem_of_In|].
    unfold registered_by_visit. by left.
  - apply Traverse_lattice.
Qed.

(** ** The scenario *)

(** C7, as the claim has it, fails on the registry: after the scenario the
    root frame is not registered, the three component frames are, and the
    registry has seven elements, not five. *)
Lemma scenario_registry_is_not_the_five :
  ∃ M s,
    Scenario.finish = Ok (M, s) ∧
    (sf_id (globalFrame M) ∉ dom (theElements M)) ∧
    cf_id Scenario.drift0 ∈ dom (theElements M) ∧
    Size (theElements M) ≠ 5.
Proof.
  do 2 eexists. split; [vm_compute; reflexivity|]. split_and!.
  - apply not_elem_of_dom. vm_compute. reflexivity.
  - apply elem_of_dom. vm_compute. eauto.
  - vm_compute. discriminate.
Qed.

(** C7, amended: the scenario returns a model whose lattice is the
    component frame of the drift of length 2, that of the drift of length
    3/2 and that of Q1, with the indices 0, 1 and 2; the root frame has
    length 7/2 (Q1 is a placeholder of no length); the registry holds
    exactly seven elements: F1, the three component frames, the two drifts,
    which are two objects, and Q1; the root frame is not registered. *)
Theorem scenario_outcome :
  ∃ M s,
    Scenario.finish = Ok (M, s) ∧
    lattice M = [Scenario.drift0; Scenario.drift1; Scenario.Q1_occurrence] ∧
    GetBeamlineIndex s Scenario.drift0 = Some 0 ∧
    GetBeamlineIndex s Scenario.drift1 = Some 1 ∧
    GetBeamlineIndex s Scenario.Q1_occurrence = Some 2 ∧
    component_length (GetComponent Scenario.drift0) = 2%Q ∧
    component_length (GetComponent Scenario.drift1) = (3 # 2)%Q ∧
    Qeq (GetGeometryLength (upcast (globalFrame M))) (7 # 2) ∧
    sf_name (globalFrame M) = "GLOBAL" ∧
    dom (theElements M) =
      {[ sf_id Scenario.F1;
         cf_id Scenario.drift0; component_id (GetComponent Scenario.drift0);
         cf_id Scenario.drift1; component_id (GetComponent Scenario.drift1);
         cf_id Scenario.Q1_occurrence; component_id Scenario.Q1 ]} ∧
    Size (theElements M) = 7 ∧
    component_id (GetComponent Scenario.drift0) ≠
      component_id (GetComponent Scenario.drift1) ∧
    sf_id (globalFrame M) ∉ dom (theElements M).
Proof.
  do 2 eexists. split; [vm_compute; reflexivity|].
  split_and!; try (vm_compute; reflexivity).
  - vm_compute. discriminate.
  - apply not_elem_of_dom. vm_compute. reflexivity.
Qed.

(** ** The registry during a construction *)

Lemma run_registry (cs : list call) :
  ∀ s s' m,
    forallb construction_call cs = true →
    currentModel s = Some m → run cs s = Ok s' →
    ∃ m', currentModel s' = Some m' ∧
      dom (theElements m') =
        dom (theElements m) ∪ list_to_set (registered cs (brk s)).
Proof.
  induction cs as [|c cs IH]; intros s s' m Hcs Hm; simpl.
  - intros [= <-]. exists m. split; [done|set_solver].
  - simpl in Hcs. apply andb_true_iff in Hcs as [Hc Hcs].
    intros (s1 & H1 & Hrun)%bind_Ok.
    destruct (step_construction_Ok c s s1 m) as (m1 & Hm1 & _ & He & Hn);
      [done..|].
    destruct (IH s1 s' m1) as (m' & Hm' & He'); [done..|].
    exists m'. split; [done|].
    rewrite He', He, Hn, list_to_set_app_L. set_solver.
Qed.

Lemma size_list_to_set_remove_dups (l : list addr) :
  size (list_to_set l : gset addr) = length (remove_dups l).
Proof.
  rewrite <- (size_list_to_set (C := gset addr) (remove_dups l))
    by apply NoDup_remove_dups.
  f_equal. apply set_eq. intros x.
  by rewrite !elem_of_list_to_set, elem_of_remove_dups.
Qed.

Lemma client_call_registered (c : call) (n : nat) (a : addr) :
  client_call c = true → a ∈ registered_by_call c n →
  is_client a = true ∨ (∃ k, a = Allocated k ∧ n ≤ k < allocated_by_call c + n).
Proof.
  intros Hc Ha. destruct c as [| |[f|]| |d|e|f|cf];
    try (left; unfold client_call in Hc;
         rewrite forallb_forall in Hc; by apply Hc, list_elem_of_In).
  right. simpl in Ha.
  apply elem_of_cons in Ha as [->|Ha].
  - exists (Datatypes.S n). split; [done|simpl; lia].
  - apply list_elem_of_singleton in Ha as ->. exists n.
    split; [done|simpl; lia].
Qed.

Lemma allocated_cons (c : call) (cs : list call) :
  allocated (c :: cs) = allocated_by_call c + allocated cs.
Proof. done. Qed.

Lemma client_calls_registered (cs : list call) :
  ∀ n a,
    forallb client_call cs = true → a ∈ registered cs n →
    is_client a = true ∨ (∃ k, a = Allocated k ∧ n ≤ k < allocated cs + n).
Proof.
  induction cs as [|c cs IH]; intros n a Hcs Ha; [by apply elem_of_nil in Ha|].
  simpl in Hcs. apply andb_true_iff in Hcs as [Hc Hcs].
  cbn [registered] in Ha. apply elem_of_app in Ha as [Ha|Ha].
  - destruct (client_call_registered c n a Hc Ha) as [?|(k & -> & Hk)];
      [by left|right].
    exists k. split; [done|]. rewrite allocated_cons. lia.
  - destruct (IH _ a Hcs Ha) as [?|(k & -> & Hk)]; [by left|right].
    exists k. split; [done|]. rewrite allocated_cons. lia.
Qed.

Lemma run_root (cs : list call) :
  ∀ s s',
    forallb construction_call cs = true → run cs s = Ok s' →
    sf_id ∘ globalFrame <$> currentModel s' =
    sf_id ∘ globalFrame <$> currentModel s.
Proof.
  induction cs as [|c cs IH]; intros s s' Hcs Hrun; simpl in Hrun.
  - by injection Hrun as <-.
  - simpl in Hcs. apply andb_true_iff in Hcs as [Hc Hcs].
    apply bind_Ok in Hrun as (s1 & H1 & Hrun).
    rewrite (IH s1 s' Hcs Hrun). by apply (step_root c).
Qed.

Lemma entities_visited (frame : LatticeFrame) :
  flat_map registered_by_visit (preorder frame) = entities frame.
Proof.
  induction frame as [id name origin consolidated children IH|cf]
    using LatticeFrame_nested_ind; [|done].
  cbn [preorder entities flat_map registered_by_visit frame_id
       dynamic_cast_ComponentFrame app]. f_equal.
  induction IH as [|child children Hchild _ IHchildren]; [done|].
  cbn [flat_map]. by rewrite flat_map_app, Hchild, IHchildren.
Qed.

Lemma registered_by_call_entities (c : call) (n : nat) :
  registered_by_call c n ⊆ entities_of_call c n.
Proof.
  destruct c as [| |[f|]| |d|e|f|cf]; try done;
    cbn [registered_by_call entities_of_call].
  - unfold upcast. cbn [entities]. set_solver.
  - by rewrite entities_visited.
  - cbn [entities]. destruct (IsComponent cf); set_solver.
Qed.

Lemma plain_call_registered (c : call) (n : nat) :
  plain_call c = true → registered_by_call c n = entities_of_call c n.
Proof.
  destruct c as [| |[f|]| |d|e|f|cf]; try done;
    cbn [registered_by_call entities_of_call plain_call].
  - unfold upcast. cbn [entities]. destruct (subFrames f); [done|discriminate].
  - intros _. apply entities_visited.
  - cbn [entities]. by intros ->.
Qed.

Lemma registered_entities (cs : list call) :
  ∀ n, registered cs n ⊆ entities_created cs n.
Proof.
  induction cs as [|c cs IH]; intros n; [done|]. simpl.
  intros a [Ha|Ha]%elem_of_app; apply elem_of_app.
  - left. by apply registered_by_call_entities.
  - right. by apply IH.
Qed.

Lemma plain_calls_registered (cs : list call) :
  ∀ n, forallb plain_call cs = true →
       registered cs n = entities_created cs n.
Proof.
  induction cs as [|c cs IH]; intros n Hcs; [done|]. simpl in *.
  apply andb_true_iff in Hcs as [Hc Hcs].
  by rewrite (plain_call_registered c n Hc), IH.
Qed.

(** C8, as the claim has it, fails, in three ways.  A new constructor has
    created the root frame, an entity of the model, and the registry is
    empty.  [NewFrame] of a frame that holds two occurrences already
    registers the frame alone, of the five entities it brings into the
    tree.  [AppendComponentFrame] of an occurrence that does not carry its
    component registers the occurrence and not the component.  Each time
    the size of the registry is not the number of distinct entities
    created. *)
Lemma registry_misses_created_entities :
  (∃ m,
     currentModel (construct ∅) = Some m ∧
     sf_name (globalFrame m) = "GLOBAL" ∧
     (sf_id (globalFrame m) ∉ dom (theElements m)) ∧
     Size (theElements m) = 0 ∧
     length (remove_dups (sf_id (globalFrame m) :: entities_created [] 1))
       = 1) ∧
  (∃ s m,
     run [CallNewFrame (Some Scenario.subtree)] (construct ∅) = Ok s ∧
     currentModel s = Some m ∧
     dom (theElements m) = {[sf_id Scenario.subtree]} ∧
     Size (theElements m) = 1 ∧
     length (remove_dups
               (entities_created [CallNewFrame (Some Scenario.subtree)] 1))
       = 5) ∧
  (∃ s m,
     run [CallAppendComponentFrame Scenario.reusing] (construct ∅) = Ok s ∧
     currentModel s = Some m ∧
     lattice m = [Scenario.reusing] ∧
     dom (theElements m) = {[cf_id Scenario.reusing]} ∧
     Size (theElements m) = 1 ∧
     length (remove_dups
               (entities_created
                  [CallAppendComponentFrame Scenario.reusing] 1))
       = 2).
Proof.
  split_and!.
  - eexists. split; [reflexivity|]. by split_and!.
  - eexists _, _. split; [reflexivity|]. split; [reflexivity|].
    split_and!; [|reflexivity|vm_compute; reflexivity].
    apply leibniz_equiv. vm_compute. set_solver.
  - eexists _, _. split; [reflexivity|]. split; [reflexivity|].
    split_and!; [reflexivity| |reflexivity|vm_compute; reflexivity].
    apply leibniz_equiv. vm_compute. set_solver.
Qed.

(** C8, amended: in a construction on a new constructor, with objects of
    the caller handed over, the registry holds only entities created in
    the construction, each once, and never the root frame.  When every
    frame is opened without children in it and every occurrence appended
    directly carries its component, the registry holds all the entities
    created but the root: its size is the number of distinct entities
    created, less one for the root, however many occurrences refer to one
    component, directly or in a sub-tree given to [AppendFrame]; handing
    over again an entity that is registered changes nothing. *)
Theorem registry_holds_entities_created_but_root (cs : list call)
    (mem : gmap addr nat) (s' : state) :
  forallb construction_call cs = true →
  forallb client_call cs = true →
  run cs (construct mem) = Ok s' →
  ∃ m',
    currentModel s' = Some m' ∧
    dom (theElements m') ⊆ list_to_set (entities_created cs 1) ∧
    (sf_id (globalFrame m') ∉ dom (theElements m')) ∧
    (forallb plain_call cs = true →
     dom (theElements m') = list_to_set (entities_created cs 1) ∧
     Size (theElements m') = length (remove_dups (entities_created cs 1)) ∧
     length (remove_dups (sf_id (globalFrame m') :: entities_created cs 1)) =
       Datatypes.S (Size (theElements m'))) ∧
    (∀ e, element_id e ∈ dom (theElements m') →
          Add e (theElements m') = theElements m') ∧
    (∀ e, Add e (Add e (theElements m')) = Add e (theElements m')).
Proof.
  intros Hcs Hclient Hrun.
  destruct (run_registry cs (construct mem) s' Scenario.new_model)
    as (m' & Hm' & He); [done..|].
  simpl in He. rewrite dom_empty_L, union_empty_l_L in He.
  assert (sf_id (globalFrame m') = Allocated 0) as Hroot.
  { pose proof (run_root cs (construct mem) s' Hcs Hrun) as H.
    rewrite Hm' in H. simpl in H. by injection H. }
  assert (sf_id (globalFrame m') ∉ dom (theElements m')) as Hnot.
  { rewrite Hroot, He, elem_of_list_to_set.
    intros [Hc|(k & [= <-] & Hk)]%client_calls_registered; [done|lia|done]. }
  exists m'. split_and!; [done| |done| | |].
  - rewrite He. intros a Ha%elem_of_list_to_set.
    by apply elem_of_list_to_set, registered_entities.
  - intros Hplain. rewrite <- (plain_calls_registered cs 1 Hplain).
    assert (Size (theElements m') = length (remove_dups (registered cs 1)))
      as Hsize.
    { rewrite Size_dom, He. apply size_list_to_set_remove_dups. }
    split_and!; [done|done|].
    rewrite Hsize. cbn [remove_dups].
    destruct (decide_rel elem_of _ _) as [Hin|_]; [|done].
    exfalso. apply Hnot. rewrite He. by apply elem_of_list_to_set.
  - intros e Hin. by apply Add_registered.
  - intros e. apply Add_twice.
Qed.

Lemma registry_holds_entities_created_but_root_witness :
  ∃ s' m',
    run Scenario.shared_calls (construct ∅) = Ok s' ∧
    currentModel s' = Some m' ∧
    length (entities_created Scenario.shared_calls 1) = 5 ∧
    Size (theElements m') = 4 ∧
    Add (component_element Scenario.Q1) (theElements m') = theElements m'.
Proof.
  destruct (registry_holds_entities_created_but_root Scenario.shared_calls
              ∅ (Scenario.state_after Scenario.shared_calls)
              eq_refl eq_refl eq_refl)
    as (m' & Hm' & _ & _ & Hall & Hagain & _).
  destruct (Hall eq_refl) as (Hdom & Hsize & _).
  exists (Scenario.state_after Scenario.shared_calls), m'.
  split_and!; [reflexivity|exact Hm'|reflexivity| |].
  - rewrite Hsize. reflexivity.
  - apply Hagain. rewrite Hdom. vm_compute. set_solver.
Defined.

(** ** [NewModel] *)

Lemma owned_released (s : state) (m : AcceleratorModel) :
  m ∈ deleted s → owned m ⊆ released s.
Proof.
  intros Hm a Ha. unfold released. apply elem_of_union_list.
  exists (owned m). split; [|done]. apply list_elem_of_fmap. eauto.
Qed.

(** C9: in any state the program can be in, with or without a model in
    progress, [NewModel] hands the model in progress, if there is one, to
    [delete], once, which releases what that model owns, its root frame
    and registered elements; no model made before remains in progress and
    every open frame is off the stack.  It leaves a new model with an
    empty registry and an empty lattice, whose global frame is a frame
    named GLOBAL with no children; the stack then holds that root and
    nothing else, so that the root is the frame that receives the
    appends. *)
Theorem NewModel_starts_afresh (s : state) :
  reachable s →
  ∃ root,
    currentModel (NewModel s) =
      Some {| globalFrame := root; theElements := ∅; lattice := [] |} ∧
    frameStack (NewModel s) = [GlobalFramePtr] ∧
    top_frame (NewModel s) = Ok root ∧
    sf_name root = "GLOBAL" ∧ sf_origin root = originAtEntrance ∧
    sf_consolidated root = false ∧ subFrames root = [] ∧
    deleted (NewModel s) = option_list (currentModel s) ++ deleted s ∧
    (∀ m, currentModel s = Some m →
          m ∈ deleted (NewModel s) ∧ owned m ⊆ released (NewModel s)) ∧
    reachable (NewModel s).
Proof.
  intros Hs. destruct (reachable_invariant s Hs) as (Hnone & Hroot & _).
  assert (deleted (NewModel s) = option_list (currentModel s) ++ deleted s)
    as Hdel.
  { unfold NewModel. simpl. by destruct (currentModel s). }
  eexists. split_and!; try reflexivity.
  - unfold NewModel. simpl. destruct (currentModel s) as [m|].
    + by rewrite drain_empty.
    + by rewrite Hnone.
  - done.
  - intros m Hm.
    assert (m ∈ deleted (NewModel s)) as Hin.
    { rewrite Hdel, Hm. simpl. apply elem_of_cons. by left. }
    split; [done|]. by apply owned_released.
  - by apply (reachable_run [CallNewModel] s).
Qed.

Lemma NewModel_starts_afresh_witness :
  ∃ root m,
    currentModel (Scenario.state_after
                    [CallAppendDrift (2%Q);
                     CallNewFrame (Some Scenario.F1)]) = Some m ∧
    currentModel (NewModel (Scenario.state_after
                              [CallAppendDrift (2%Q);
                               CallNewFrame (Some Scenario.F1)])) =
      Some {| globalFrame := root; theElements := ∅; lattice := [] |} ∧
    frameStack (NewModel (Scenario.state_after
                            [CallAppendDrift (2%Q);
                             CallNewFrame (Some Scenario.F1)])) =
      [GlobalFramePtr] ∧
    deleted (NewModel (Scenario.state_after
                         [CallAppendDrift (2%Q);
                          CallNewFrame (Some Scenario.F1)])) = [m] ∧
    sf_name root = "GLOBAL".
Proof.
  destruct (NewModel_starts_afresh
              (Scenario.state_after
                 [CallAppendDrift (2%Q); CallNewFrame (Some Scenario.F1)]))
    as (root & Hm & Hst & _ & Hname & _ & _ & _ & Hdel & _).
  - exists ∅, [CallAppendDrift (2%Q); CallNewFrame (Some Scenario.F1)].
    reflexivity.
  - exists root. eexists.
    split_and!; [reflexivity|exact Hm|exact Hst|exact Hdel|exact Hname].
Defined.

(** ** Operations without a guard *)

(** C10: [AddModelElement] and [ReportStatistics] go through
    [currentModel] with no check.  With no model in progress both reach
    the null pointer, where [NewFrame], [AppendFrame] and
    [AppendComponentFrame] fail their assertion; that is the state
    [GetModel] leaves, and no call but [NewModel] returns from it.  With a
    model in progress both return: the first registers the element and the
    second reads the model. *)
Theorem unguarded_model_access (s : state) (element : ModelElement) :
  (currentModel s = None →
     AddModelElement element s = Undefined NullPointer ∧
     ReportStatistics s = Undefined NullPointer ∧
     (∀ aFrame, NewFrame aFrame s = AssertionFailed) ∧
     (∀ aFrame, AppendFrame aFrame s = AssertionFailed) ∧
     (∀ cf, AppendComponentFrame cf s = AssertionFailed)) ∧
  (∀ M s', GetModel s = Ok (M, s') →
     AddModelElement element s' = Undefined NullPointer ∧
     ReportStatistics s' = Undefined NullPointer ∧
     ∀ c, match c with
          | CallNewModel => True
          | _ => is_Ok (step c s') = false
          end) ∧
  (∀ m, currentModel s = Some m →
     AddModelElement element s =
       Ok (set_model (set_theElements (Add element (theElements m)) m) s) ∧
     ∃ stats,
       ReportStatistics s = Ok stats ∧
       number_of_components stats = length (lattice m) ∧
       number_of_elements stats = Size (theElements m)).
Proof.
  split_and!.
  - intros Hm. unfold AddModelElement, ReportStatistics, NewFrame,
      AppendFrame, AppendComponentFrame. rewrite Hm. by split_and!.
  - intros M s' Hget. unfold GetModel in Hget.
    destruct (frameStack s) as [|p [|q rest]]; try done;
      destruct (currentModel s); try done.
    injection Hget as _ <-. split_and!; try done.
    by intros [| |[f|]| |d|e|f|cf].
  - intros m Hm. unfold AddModelElement, ReportStatistics. rewrite Hm.
    split; [done|]. eexists. by split_and!.
Qed.

Lemma unguarded_model_access_witness :
  (AddModelElement (component_element Scenario.Q1)
     (Scenario.state_after [CallGetModel]) = Undefined NullPointer ∧
   ReportStatistics (Scenario.state_after [CallGetModel]) =
     Undefined NullPointer) ∧
  is_Ok (AddModelElement (component_element Scenario.Q1) (construct ∅)) = true.
Proof.
  split.
  - destruct (unguarded_model_access (Scenario.state_after [CallGetModel])
                (component_element Scenario.Q1)) as [H _].
    destruct (H eq_refl) as (H1 & H2 & _). by split.
  - destruct (unguarded_model_access (construct ∅)
                (component_element Scenario.Q1)) as (_ & _ & H).
    destruct (H Scenario.new_model eq_refl) as [-> _]. reflexivity.
Defined.

(** * Further properties of the constructor *)

#[local] Arguments SequenceFrame_AppendFrame : simpl never.

(** ** The statistics of [ReportStatistics] *)

Lemma ModelStats_lookup (type type' : string) (stats : gmap string nat) :
  default 0 (ModelStats type stats !! type') =
  (if decide (type = type') then 1 else 0) + default 0 (stats !! type').
Proof.
  unfold ModelStats. case_decide as H.
  - subst. by rewrite lookup_insert_eq.
  - by rewrite lookup_insert_ne.
Qed.

Lemma ModelStats_comm (type1 type2 : string) (stats : gmap string nat) :
  ModelStats type1 (ModelStats type2 stats) =
  ModelStats type2 (ModelStats type1 stats).
Proof.
  destruct (decide (type1 = type2)) as [->|H]; [done|].
  unfold ModelStats. rewrite !lookup_insert_ne by done.
  by apply insert_insert_ne.
Qed.

Lemma statistics_total_ModelStats (type : string) (stats : gmap string nat) :
  statistics_total (ModelStats type stats) =
  Datatypes.S (statistics_total stats).
Proof.
  unfold statistics_total, ModelStats.
  assert (∀ z1 z2 y : nat, z1 + (z2 + y) = z2 + (z1 + y)) as Hcomm
    by (intros; lia).
  destruct (stats !! type) as [n|] eqn:E; simpl.
  - rewrite <- (insert_delete_eq stats type (Datatypes.S n)).
    rewrite map_fold_insert_L;
      [|intros; apply Hcomm|by rewrite lookup_delete_eq].
    rewrite <- (insert_delete_id stats type n) at 2 by done.
    rewrite map_fold_insert_L;
      [|intros; apply Hcomm|by rewrite lookup_delete_eq].
    simpl. lia.
  - rewrite map_fold_insert_L; [done|intros; apply Hcomm|done].
Qed.

Lemma collect_insert (k : addr) (type : string) (r : gmap addr string) :
  r !! k = None →
  map_fold (λ _ type stats, ModelStats type stats) ∅ (<[k:=type]> r) =
  ModelStats type (map_fold (λ _ type stats, ModelStats type stats) ∅ r).
Proof.
  intros Hk. apply (map_fold_insert_L (λ _ type stats, ModelStats type stats));
    [|done].
  intros. apply ModelStats_comm.
Qed.

Lemma collect_counts (r : gmap addr string) (type : string) :
  default 0 (map_fold (λ _ type stats, ModelStats type stats) ∅ r !! type) =
  elements_of_type type r.
Proof.
  unfold elements_of_type.
  induction r as [|k t r Hk IH] using map_ind.
  - by rewrite map_fold_empty, map_filter_empty, map_size_empty.
  - rewrite collect_insert, ModelStats_lookup, IH by done.
    case_decide as H.
    + rewrite map_filter_insert_True by done.
      rewrite map_size_insert_None; [done|].
      by rewrite map_lookup_filter_None_2; [|left].
    + rewrite map_filter_insert_False by (simpl; congruence).
      by rewrite delete_id.
Qed.

Lemma collect_total (r : gmap addr string) :
  statistics_total (map_fold (λ _ type stats, ModelStats type stats) ∅ r) =
  size r.
Proof.
  induction r as [|k t r Hk IH] using map_ind.
  - by rewrite map_fold_empty, map_size_empty.
  - rewrite collect_insert, statistics_total_ModelStats, IH by done.
    by rewrite map_size_insert_None.
Qed.

Lemma collect_positive (r : gmap addr string) (type : string) :
  map_fold (λ _ type stats, ModelStats type stats) ∅ r !! type ≠ Some 0.
Proof.
  induction r as [|k t r Hk IH] using map_ind.
  - by rewrite map_fold_empty, lookup_empty.
  - rewrite collect_insert by done. unfold ModelStats.
    destruct (decide (t = type)) as [->|H].
    + by rewrite lookup_insert_eq.
    + by rewrite lookup_insert_ne.
Qed.

(** X1: with a model in progress [ReportStatistics] returns, and what it
    reports is the length of the lattice, the size of the registry, and
    for each type the number of registered elements of that type: every
    element is counted once, under its own type, whatever the order in
    which the registry is walked; no type is listed with the count 0, and
    the counts add up to the number of elements. *)
Theorem statistics_count_every_element (s : state) (m : AcceleratorModel) :
  currentModel s = Some m →
  ∃ stats,
    ReportStatistics s = Ok stats ∧
    number_of_components stats = length (lattice m) ∧
    number_of_elements stats = Size (theElements m) ∧
    (∀ type, default 0 (element_statistics stats !! type) =
             elements_of_type type (theElements m)) ∧
    (∀ type, element_statistics stats !! type ≠ Some 0) ∧
    statistics_total (element_statistics stats) = number_of_elements stats.
Proof.
  intros Hm. unfold ReportStatistics. rewrite Hm. eexists.
  split; [reflexivity|]. simpl. split_and!; try done.
  - apply collect_counts.
  - apply collect_positive.
  - apply collect_total.
Qed.

Lemma statistics_count_every_element_witness :
  ∃ stats,
    ReportStatistics (Scenario.state_after Scenario.calls) = Ok stats ∧
    number_of_components stats = 3 ∧
    number_of_elements stats = 7 ∧
    default 0 (element_statistics stats !! "Drift") = 2 ∧
    default 0 (element_statistics stats !! "ComponentFrame") = 3 ∧
    statistics_total (element_statistics stats) = 7.
Proof.
  destruct (statistics_count_every_element
              (Scenario.state_after Scenario.calls)
              (match currentModel (Scenario.state_after Scenario.calls) with
               | Some m => m
               | None => Scenario.new_model
               end))
    as (stats & Hreport & Hn & Hsize & Hcount & _ & Htotal).
  - vm_compute. reflexivity.
  - exists stats. split_and!; [exact Hreport| | | | |].
    + rewrite Hn. vm_compute. reflexivity.
    + rewrite Hsize. vm_compute. reflexivity.
    + rewrite Hcount. vm_compute. reflexivity.
    + rewrite Hcount. vm_compute. reflexivity.
    + rewrite Htotal, Hsize. vm_compute. reflexivity.
Defined.

(** ** The lattice and the frame tree *)

Lemma flatten_AppendFrame (child : LatticeFrame) (f : SequenceFrame) :
  flatten (upcast (SequenceFrame_AppendFrame child f)) =
  flatten (upcast f) ++ flatten child.
Proof.
  unfold upcast. simpl. rewrite flat_map_app. simpl. by rewrite app_nil_r.
Qed.

Lemma rooted_global_top (rest : list FramePtr) :
  rooted (GlobalFramePtr :: rest) → rest = [].
Proof.
  intros [[|n] Hn]; simpl in Hn.
  - injection Hn as Hn. by apply fmap_nil_inv in Hn.
  - done.
Qed.

Lemma rooted_tail (p q : FramePtr) (rest : list FramePtr) :
  rooted (p :: q :: rest) → rooted (q :: rest) ∧ ∃ f, p = OpenFramePtr f.
Proof.
  intros [[|n] Hn]; simpl in Hn.
  - by injection Hn as _ Hn.
  - injection Hn as Hp Hn. split; [by exists n|].
    destruct p; [done|eauto].
Qed.

Lemma occurrences_under_construction_ext (m m' : AcceleratorModel)
    (st : list FramePtr) :
  globalFrame m' = globalFrame m →
  occurrences_under_construction m' st = occurrences_under_construction m st.
Proof.
  intros Hg. unfold occurrences_under_construction.
  apply flat_map_ext. intros [|f]; simpl; by rewrite ?Hg.
Qed.

Lemma occurrences_under_construction_cons (m : AcceleratorModel)
    (p : FramePtr) (st : list FramePtr) :
  occurrences_under_construction m (p :: st) =
  occurrences_under_construction m st ++ flatten (upcast (frame_of m p)).
Proof.
  unfold occurrences_under_construction.
  rewrite reverse_cons, flat_map_app. simpl. by rewrite app_nil_r.
Qed.

(** A child appended to the top frame comes last in document order. *)
Lemma top_AppendFrame_occurrences (child : LatticeFrame) (s s' : state)
    (m : AcceleratorModel) :
  currentModel s = Some m → rooted (frameStack s) →
  top_AppendFrame child s = Ok s' →
  ∃ m', currentModel s' = Some m' ∧
    theElements m' = theElements m ∧ lattice m' = lattice m ∧
    occurrences_under_construction m' (frameStack s') =
    occurrences_under_construction m (frameStack s) ++ flatten child.
Proof.
  unfold top_AppendFrame. destruct s as [cm st mem n del]; simpl.
  intros -> Hrooted. destruct st as [|[|f] rest]; [done| |].
  - apply rooted_global_top in Hrooted as ->. intros [= <-]. simpl.
    eexists. split_and!; try done.
    unfold occurrences_under_construction. simpl.
    rewrite flat_map_app. simpl. by rewrite !app_nil_r.
  - intros [= <-]. simpl. exists m. split_and!; try done.
    by rewrite !occurrences_under_construction_cons, <- app_assoc,
      <- flatten_AppendFrame.
Qed.

Lemma AppendComponentFrame_follows_tree (cf : ComponentFrame)
    (s s' : state) :
  lattice_follows_tree s → AppendComponentFrame cf s = Ok s' →
  lattice_follows_tree s'.
Proof.
  intros (m & Hm & Hrooted & Hl). unfold AppendComponentFrame. rewrite Hm.
  set (m1 := set_lattice _ _).
  intros (s1 & H1 & [= <-])%bind_Ok.
  pose proof (top_AppendFrame_kinds _ _ _ H1) as Hkinds.
  apply top_AppendFrame_occurrences with (m := m1) in H1
    as (m' & Hm' & _ & Hl' & Hocc); [|done..].
  exists m'. split_and!; [done| |].
  - destruct Hrooted as [n Hn]. exists n. simpl in *. by rewrite Hkinds.
  - cbn [frameStack SetBeamlineIndex]. rewrite Hl', Hocc.
    cbn [frameStack set_model]. subst m1.
    rewrite (occurrences_under_construction_ext m) by done.
    cbn [lattice set_lattice]. by rewrite Hl.
Qed.

Lemma step_lattice_follows_tree (c : call) (s s' : state) :
  construction_call c = true → opens_empty c = true →
  lattice_follows_tree s → step c s = Ok s' → lattice_follows_tree s'.
Proof.
  intros Hc Hempty Hs Hstep.
  assert (rooted (frameStack s')) as Hrooted'.
  { destruct Hs as (m & _ & Hrooted & _). by apply (step_rooted c s s'). }
  destruct c as [| |[f|]| |d|e|f|cf]; try done; simpl in Hstep;
    [| | | | | |by eapply AppendComponentFrame_follows_tree].
  - destruct Hs as (m & Hm & Hrooted & Hl).
    unfold NewFrame in Hstep. rewrite Hm in Hstep. injection Hstep as <-.
    eexists. split_and!; [done|done|].
    cbn [frameStack set_stack]. rewrite occurrences_under_construction_cons.
    unfold opens_empty in Hempty. unfold frame_of.
    destruct (flatten (upcast f)); [|done].
    rewrite app_nil_r. cbn [frameStack set_model lattice set_theElements].
    rewrite Hl. symmetry. by apply occurrences_under_construction_ext.
  - destruct Hs as (m & Hm & _). unfold NewFrame in Hstep.
    by rewrite Hm in Hstep.
  - destruct Hs as (m & Hm & Hrooted & Hl). unfold EndFrame in Hstep.
    destruct (frameStack s) as [|p [|q rest]] eqn:Hst; try done.
    apply rooted_tail in Hrooted as [Hrooted [f ->]]. simpl in Hstep.
    apply top_AppendFrame_occurrences with (m := m) in Hstep
      as (m' & Hm' & _ & Hl' & Hocc); [|done..].
    exists m'. split_and!; [done|done|].
    rewrite Hl', Hl, Hocc. cbn [frameStack set_stack].
    by rewrite (occurrences_under_construction_cons m (OpenFramePtr f)).
  - unfold AppendDrift in Hstep.
    eapply AppendComponentFrame_follows_tree; [|exact Hstep].
    destruct Hs as (m & Hm & Hrooted & Hl). by exists m.
  - destruct Hs as (m & Hm & Hrooted & Hl).
    unfold AddModelElement in Hstep. rewrite Hm in Hstep.
    injection Hstep as <-. eexists. split_and!; [done|done|].
    cbn [frameStack set_model lattice set_theElements].
    rewrite Hl. symmetry. by apply occurrences_under_construction_ext.
  - destruct Hs as (m & Hm & Hrooted & Hl).
    unfold AppendFrame in Hstep. rewrite Hm in Hstep.
    eapply top_AppendFrame_occurrences in Hstep
      as (m' & Hm' & _ & Hl' & Hocc); [|done..].
    exists m'. split_and!; [done|done|].
    rewrite Hl', Hocc. cbn [frameStack set_model lattice set_lattice].
    rewrite Traverse_lattice. cbn [mx_lattice].
    rewrite (occurrences_under_construction_ext m) by done.
    by rewrite Hl.
Qed.

Lemma run_lattice_follows_tree (cs : list call) :
  ∀ s s',
    forallb construction_call cs = true → forallb opens_empty cs = true →
    lattice_follows_tree s → run cs s = Ok s' → lattice_follows_tree s'.
Proof.
  induction cs as [|c cs IH]; intros s s' Hcs Hempty Hs; simpl.
  - by intros [= <-].
  - simpl in Hcs, Hempty.
    apply andb_true_iff in Hcs as [Hc Hcs].
    apply andb_true_iff in Hempty as [He Hempty].
    intros (s1 & H1 & Hrun)%bind_Ok.
    eauto using step_lattice_follows_tree.
Qed.

Lemma balanced_from_construction (cs : list call) :
  ∀ depth, balanced_from depth cs = true →
           forallb construction_call cs = true.
Proof.
  induction cs as [|c cs IH]; intros depth Hb; [done|].
  apply balanced_from_cons in Hb as (Hc & _ & _ & depth' & _ & Hb).
  simpl. rewrite Hc. simpl. eauto.
Qed.

Lemma balanced_run_flattened (cs : list call) (s : state)
    (m : AcceleratorModel) :
  currentModel s = Some m →
  frameStack s = [GlobalFramePtr] →
  lattice m = flatten (upcast (globalFrame m)) →
  forallb opens_empty cs = true →
  balanced cs = true →
  ∃ s' m',
    run cs s = Ok s' ∧ currentModel s' = Some m' ∧
    frameStack s' = [GlobalFramePtr] ∧
    lattice m' = flatten (upcast (globalFrame m')) ∧
    length (lattice m') = length (lattice m) + occurrences_appended cs.
Proof.
  intros Hm Hst Hl Hempty Hb.
  destruct (run_balanced cs 0 s m) as (s' & m' & Hrun & Hm' & Hst' & Hlen);
    [done|by rewrite Hst|done|].
  assert (lattice_follows_tree s') as (m0 & Hm0 & Hrooted & Hl').
  { apply (run_lattice_follows_tree cs s); [|done| |done].
    - by apply (balanced_from_construction cs 0).
    - exists m. split_and!; [done|by exists 0; rewrite Hst|].
      rewrite Hst, Hl. unfold occurrences_under_construction. simpl.
      by rewrite app_nil_r. }
  rewrite Hm' in Hm0. injection Hm0 as <-.
  exists s', m'.
  destruct (frameStack s') as [|p [|q rest]]; try done.
  destruct Hrooted as [[|n] Hn]; [|by destruct n].
  destruct p; [|done]. split_and!; try done.
  rewrite Hl'. unfold occurrences_under_construction. simpl.
  by rewrite app_nil_r.
Qed.

(** X2: on a new constructor, a balanced sequence that hands over every
    frame object once and opens only frames without component frames in
    them ends in a state where [GetModel] returns a model whose lattice is
    exactly the component frames of its frame tree, in document order, one
    for each occurrence appended: nothing is lost, doubled or reordered by
    the nesting. *)
Theorem lattice_is_flattened_tree (cs : list call) (mem : gmap addr nat) :
  each_frame_once cs = true →
  forallb opens_empty cs = true →
  balanced cs = true →
  ∃ s' M s'',
    run cs (construct mem) = Ok s' ∧ GetModel s' = Ok (M, s'') ∧
    lattice M = flatten (upcast (globalFrame M)) ∧
    length (lattice M) = occurrences_appended cs.
Proof.
  intros _ Hempty Hb.
  destruct (balanced_run_flattened cs (construct mem) Scenario.new_model)
    as (s' & m' & Hrun & Hm' & Hst' & Hl' & Hlen); [done..|].
  exists s'. unfold GetModel. rewrite Hm', Hst'.
  eexists _, _. by split_and!.
Qed.

Lemma lattice_is_flattened_tree_witness :
  ∃ s' M s'',
    run Scenario.calls (construct ∅) = Ok s' ∧ GetModel s' = Ok (M, s'') ∧
    lattice M = flatten (upcast (globalFrame M)) ∧
    length (lattice M) = 3.
Proof.
  apply (lattice_is_flattened_tree Scenario.calls ∅); reflexivity.
Defined.

(** ** Balanced sequences, exactly *)





(** ** What a construction keeps *)

Lemma Add_subseteq (e : ModelElement) (r : gmap addr string) : r ⊆ Add e r.
Proof.
  unfold Add. destruct (r !! element_id e) eqn:E; [done|].
  by apply insert_subseteq.
Qed.

Lemma ActOn_erepo_subseteq (frame : LatticeFrame) (mx : MEExtractor) :
  erepo mx ⊆ erepo (ActOn frame mx).
Proof.
  unfold ActOn. destruct (dynamic_cast_ComponentFrame frame); simpl.
  - etrans; apply Add_subseteq.
  - apply Add_subseteq.
Qed.

Lemma Traverse_erepo_subseteq (frame : LatticeFrame) (mx : MEExtractor) :
  erepo mx ⊆ erepo (Traverse ActOn frame mx).
Proof.
  rewrite Traverse_preorder. generalize (preorder frame). intros frames.
  revert mx. induction frames as [|x frames IH]; intros mx; [done|].
  simpl. etrans; [apply (ActOn_erepo_subseteq x)|apply IH].
Qed.

(** A call of a construction keeps the registry and the lattice it finds
    and adds to them; it writes no index but that of the component frame
    it appends directly. *)
Lemma step_grows (c : call) (s s' : state) (m : AcceleratorModel) :
  construction_call c = true → currentModel s = Some m →
  step c s = Ok s' →
  ∃ m', currentModel s' = Some m' ∧
    theElements m ⊆ theElements m' ∧
    lattice m `prefix_of` lattice m' ∧
    brk s ≤ brk s' ∧
    (∀ a, a ∉ appended_directly [c] →
          (∀ n, a = Allocated n → n < brk s) →
          blI s' !! a = blI s !! a).
Proof.
  intros Hc Hm Hstep.
  destruct c as [| |[f|]| |d|e|f|cf]; try done; simpl in Hstep.
  - unfold NewFrame in Hstep. rewrite Hm in Hstep. injection Hstep as <-.
    eexists. split_and!; [done|apply Add_subseteq|done|done|done].
  - unfold NewFrame in Hstep. by rewrite Hm in Hstep.
  - apply EndFrame_Ok in Hstep as (He & Hl & _ & Hmem & Hn).
    rewrite Hm in He, Hl. destruct (currentModel s') as [m'|]; [|done].
    injection He as He. injection Hl as Hl. exists m'.
    rewrite He, Hl, Hmem, Hn. by split_and!.
  - unfold AppendDrift in Hstep.
    apply AppendComponentFrame_Ok in Hstep
      as (m0 & m' & Hm0 & Hm' & Hl & He & _ & Hmem & Hn & _).
    simpl in Hm0, Hl, He, Hmem, Hn. rewrite Hm in Hm0. injection Hm0 as <-.
    exists m'. split_and!; [done| | |lia|].
    + rewrite He. etrans; apply Add_subseteq.
    + rewrite Hl. by apply prefix_app_r.
    + intros a _ Ha. rewrite Hmem. apply lookup_insert_ne.
      intros <-. specialize (Ha _ eq_refl). lia.
  - unfold AddModelElement in Hstep. rewrite Hm in Hstep.
    injection Hstep as <-.
    eexists. split_and!; [done|apply Add_subseteq|done|done|done].
  - unfold AppendFrame in Hstep. rewrite Hm in Hstep.
    apply top_AppendFrame_Ok in Hstep as (He & Hl & _ & Hmem & Hn & _).
    simpl in He, Hl, Hmem, Hn.
    destruct (currentModel s') as [m'|]; [|done].
    injection He as He. injection Hl as Hl. exists m'.
    split_and!; [done| | |lia|by rewrite Hmem].
    + rewrite He. apply (Traverse_erepo_subseteq _ (Build_MEExtractor _ _)).
    + rewrite Hl, Traverse_lattice. by apply prefix_app_r.
  - apply AppendComponentFrame_Ok in Hstep
      as (m0 & m' & Hm0 & Hm' & Hl & He & _ & Hmem & Hn & _).
    rewrite Hm in Hm0. injection Hm0 as <-.
    exists m'. split_and!; [done| | |lia|].
    + rewrite He. destruct (IsComponent cf); [etrans|]; apply Add_subseteq.
    + rewrite Hl. by apply prefix_app_r.
    + intros a Ha _. rewrite Hmem. apply lookup_insert_ne.
      intros <-. apply Ha. simpl. by left.
Qed.

Lemma appended_directly_cons (c : call) (cs : list call) :
  appended_directly (c :: cs) = appended_directly [c] ++ appended_directly cs.
Proof. by destruct c. Qed.

Lemma run_grows (cs : list call) :
  ∀ s s' m,
    forallb construction_call cs = true → currentModel s = Some m →
    run cs s = Ok s' →
    ∃ m', currentModel s' = Some m' ∧
      theElements m ⊆ theElements m' ∧
      lattice m `prefix_of` lattice m' ∧
      brk s ≤ brk s' ∧
      (∀ a, a ∉ appended_directly cs →
            (∀ n, a = Allocated n → n < brk s) →
            blI s' !! a = blI s !! a).
Proof.
  induction cs as [|c cs IH]; intros s s' m Hcs Hm Hrun; simpl in Hrun.
  - injection Hrun as <-. exists m. by split_and!.
  - simpl in Hcs. apply andb_true_iff in Hcs as [Hc Hcs].
    apply bind_Ok in Hrun as (s1 & H1 & Hrun).
    destruct (step_grows c s s1 m) as (m1 & Hm1 & He1 & Hl1 & Hn1 & Hmem1);
      [done..|].
    destruct (IH s1 s' m1) as (m' & Hm' & He' & Hl' & Hn' & Hmem');
      [done..|].
    exists m'. split_and!; [done|by etrans|by etrans|lia|].
    intros a Ha Hbrk. rewrite appended_directly_cons in Ha.
    apply not_elem_of_app in Ha as [Ha1 Ha2].
    rewrite Hmem', Hmem1; [done..|].
    intros n Hn. specialize (Hbrk n Hn). lia.
Qed.

(** X4: the calls of a construction only append: the lattice before is a
    prefix of the lattice after, so that every component frame keeps its
    position, and every registered element stays registered under its
    type; the registry never shrinks. *)
Theorem construction_only_appends (cs : list call) (s s' : state)
    (m : AcceleratorModel) :
  forallb construction_call cs = true →
  currentModel s = Some m →
  run cs s = Ok s' →
  ∃ m', currentModel s' = Some m' ∧
    lattice m `prefix_of` lattice m' ∧
    (∀ i cf, lattice m !! i = Some cf → lattice m' !! i = Some cf) ∧
    (∀ a type, theElements m !! a = Some type →
               theElements m' !! a = Some type) ∧
    Size (theElements m) ≤ Size (theElements m').
Proof.
  intros Hcs Hm Hrun.
  destruct (run_grows cs s s' m) as (m' & Hm' & He & Hl & _); [done..|].
  exists m'. split_and!; [done|done| | |].
  - intros i cf Hi. destruct Hl as [l ->]. by apply lookup_app_l_Some.
  - intros a type Ha. by eapply lookup_weaken.
  - unfold Size. by apply map_subseteq_size.
Qed.

(** X5: the stored index of a component frame of the caller changes only
    when that frame is handed to [AppendComponentFrame]: [NewFrame],
    [EndFrame], [AddModelElement], [AppendDrift], [AppendFrame] and the
    [AppendComponentFrame] of other frames leave it as it is. *)
Theorem indices_written_by_direct_appends_only (cs : list call)
    (s s' : state) (cf : ComponentFrame) :
  forallb construction_call cs = true →
  is_Some (currentModel s) →
  run cs s = Ok s' →
  cf_id cf ∉ appended_directly cs →
  is_client (cf_id cf) = true →
  GetBeamlineIndex s' cf = GetBeamlineIndex s cf.
Proof.
  intros Hcs [m Hm] Hrun Hcf Hclient.
  destruct (run_grows cs s s' m) as (m' & _ & _ & _ & _ & Hmem); [done..|].
  apply Hmem; [done|]. intros n Hn. by rewrite Hn in Hclient.
Qed.

Lemma construction_only_appends_witness :
  ∃ m',
    currentModel (Scenario.state_after Scenario.calls) = Some m' ∧
    lattice m' !! 0 = Some Scenario.drift0 ∧
    2 ≤ Size (theElements m').
Proof.
  destruct (construction_only_appends (tail Scenario.calls)
              (Scenario.state_after [CallAppendDrift (2%Q)])
              (Scenario.state_after Scenario.calls)
              (match currentModel
                       (Scenario.state_after [CallAppendDrift (2%Q)]) with
               | Some m => m
               | None => Scenario.new_model
               end))
    as (m' & Hm' & _ & Hpos & _ & Hsize); [vm_compute; reflexivity..|].
  exists m'. split_and!; [done| |].
  - apply Hpos. vm_compute. reflexivity.
  - etrans; [|exact Hsize]. vm_compute. lia.
Defined.

Lemma indices_written_by_direct_appends_only_witness :
  GetBeamlineIndex
    (Scenario.state_after
       [CallAppendFrame Scenario.subtree; CallAppendDrift (1%Q)])
    Scenario.occurrence_a =
  GetBeamlineIndex (construct ∅) Scenario.occurrence_a.
Proof.
  apply (indices_written_by_direct_appends_only
           [CallAppendFrame Scenario.subtree; CallAppendDrift (1%Q)]
           (construct ∅)); [reflexivity|by eexists|reflexivity| |reflexivity].
  simpl. apply not_elem_of_nil.
Defined.

(** ** Edge cases of the appends *)

(** X6: nothing stops a component frame from being appended twice: it
    is then twice in the lattice, the second call overwrites its index
    with the later position, so that the earlier position holds a frame
    whose index is not that position, and the registry is not changed by
    the second call. *)
Theorem AppendComponentFrame_twice_renumbers (cf : ComponentFrame)
    (s : state) (m : AcceleratorModel) :
  currentModel s = Some m → frameStack s ≠ [] →
  ∃ s1 m1 s2 m2,
    AppendComponentFrame cf s = Ok s1 ∧ currentModel s1 = Some m1 ∧
    AppendComponentFrame cf s1 = Ok s2 ∧ currentModel s2 = Some m2 ∧
    lattice m2 = lattice m ++ [cf; cf] ∧
    GetBeamlineIndex s1 cf = Some (length (lattice m)) ∧
    GetBeamlineIndex s2 cf = Some (Datatypes.S (length (lattice m))) ∧
    theElements m2 = theElements m1.
Proof.
  intros Hm Hst.
  destruct (AppendComponentFrame_defined cf s) as [s1 H1]; [eauto|done|].
  pose proof H1 as (m0 & m1 & Hm0 & Hm1 & Hl1 & He1 & Hlen1 & Hmem1 & _)%
    AppendComponentFrame_Ok.
  rewrite Hm in Hm0. injection Hm0 as <-.
  destruct (AppendComponentFrame_defined cf s1) as [s2 H2]; [eauto| |].
  { destruct (frameStack s1), (frameStack s); simpl in Hlen1; done. }
  pose proof H2 as (m1' & m2 & Hm1' & Hm2 & Hl2 & He2 & _ & Hmem2 & _)%
    AppendComponentFrame_Ok.
  rewrite Hm1 in Hm1'. injection Hm1' as <-.
  exists s1, m1, s2, m2. split_and!; try done.
  - by rewrite Hl2, Hl1, <- app_assoc.
  - unfold GetBeamlineIndex. rewrite Hmem1. apply lookup_insert_eq.
  - unfold GetBeamlineIndex. rewrite Hmem2, lookup_insert_eq, Hl1, length_app.
    simpl. f_equal. lia.
  - rewrite He2.
    assert (cf_id cf ∈ dom (theElements m1)) as Hcf.
    { rewrite He1. destruct (IsComponent cf); rewrite !Add_dom; simpl;
        set_solver. }
    rewrite (Add_registered (occurrence_element cf)) by done.
    destruct (IsComponent cf) eqn:Hc; [|done].
    apply Add_registered. rewrite He1. rewrite ?Hc. apply Add_registers.
Qed.

Lemma AppendComponentFrame_twice_renumbers_witness :
  ∃ s1 m1 s2 m2,
    AppendComponentFrame Scenario.Q1_occurrence (construct ∅) = Ok s1 ∧
    currentModel s1 = Some m1 ∧
    AppendComponentFrame Scenario.Q1_occurrence s1 = Ok s2 ∧
    currentModel s2 = Some m2 ∧
    lattice m2 = [] ++ [Scenario.Q1_occurrence; Scenario.Q1_occurrence] ∧
    GetBeamlineIndex s1 Scenario.Q1_occurrence = Some (length ([] : list ComponentFrame)) ∧
    GetBeamlineIndex s2 Scenario.Q1_occurrence = Some 1 ∧
    theElements m2 = theElements m1.
Proof.
  apply (AppendComponentFrame_twice_renumbers Scenario.Q1_occurrence
           (construct ∅) Scenario.new_model); [reflexivity|done].
Defined.

(** X7: in a state the program can be in, the stack is empty exactly when
    no model is in progress.  With a model in progress the root is at the
    bottom of the stack and nowhere else, so that the [frameStack.top()]
    of the appends, which no check precedes, finds a frame.  With none,
    [NewFrame], [AppendFrame], [AppendComponentFrame] and [AppendDrift]
    fail their assertion, whatever they are given. *)
Theorem stack_is_empty_only_without_model (s : state) :
  reachable s →
  match currentModel s with
  | Some _ =>
      frameStack s ≠ [] ∧ rooted (frameStack s) ∧
      last (frameStack s) = Some GlobalFramePtr ∧
      ∀ child, top_AppendFrame child s ≠ Undefined EmptyStack
  | None =>
      frameStack s = [] ∧
      ∀ aFrame aFrame' cf d,
        NewFrame aFrame s = AssertionFailed ∧
        AppendFrame aFrame' s = AssertionFailed ∧
        AppendComponentFrame cf s = AssertionFailed ∧
        AppendDrift d s = AssertionFailed
  end.
Proof.
  intros (Hnone & _ & Hrooted)%reachable_invariant.
  destruct (currentModel s) as [m|] eqn:Hm.
  - specialize (Hrooted ltac:(eauto)).
    assert (frameStack s ≠ []) as Hst.
    { destruct Hrooted as [n Hn].
      destruct (frameStack s); [by destruct n|done]. }
    split_and!; [done|done|by apply rooted_last|].
    intros child. unfold top_AppendFrame.
    destruct (frameStack s) as [|[|f] rest]; [done| |done].
    by destruct (currentModel s).
  - split; [by apply Hnone|]. intros aFrame aFrame' cf d.
    unfold NewFrame, AppendFrame, AppendDrift, AppendComponentFrame. simpl.
    by rewrite Hm.
Qed.

Lemma stack_is_empty_only_without_model_witness :
  frameStack
    (Scenario.state_after
       [CallAppendDrift (2%Q); CallNewFrame (Some Scenario.F1)]) ≠ [] ∧
  frameStack (Scenario.state_after [CallGetModel]) = [] ∧
  AppendFrame Scenario.subtree (Scenario.state_after [CallGetModel]) =
  AssertionFailed.
Proof.
  pose proof (stack_is_empty_only_without_model
                (Scenario.state_after
                   [CallAppendDrift (2%Q); CallNewFrame (Some Scenario.F1)])
                ltac:(by exists ∅,
                        [CallAppendDrift (2%Q);
                         CallNewFrame (Some Scenario.F1)])) as H1.
  pose proof (stack_is_empty_only_without_model
                (Scenario.state_after [CallGetModel])
                ltac:(by exists ∅, [CallGetModel])) as H2.
  destruct H1 as (H1 & _). destruct H2 as (H2 & H3).
  split_and!; [exact H1|exact H2|].
  apply (H3 None Scenario.subtree Scenario.Q1_occurrence 0%Q).
Defined.

(** ** [AppendFrame] and the ways round it *)

Lemma replay_run (occurrences : list ComponentFrame) (s : state) :
  replay occurrences s = run (CallAppendComponentFrame <$> occurrences) s.
Proof.
  revert s. induction occurrences as [|cf rest IH]; intros s; [done|].
  simpl. destruct (AppendComponentFrame cf s); simpl; auto.
Qed.

Lemma registered_replay (occurrences : list ComponentFrame) (n : nat) :
  registered (CallAppendComponentFrame <$> occurrences) n =
  registered_by_replay occurrences.
Proof.
  unfold registered_by_replay. revert n.
  induction occurrences as [|cf rest IH]; intros n; [done|].
  cbn [fmap list_fmap registered flat_map]. by rewrite IH.
Qed.

Lemma flatten_visited (frame : LatticeFrame) (cf : ComponentFrame) :
  cf ∈ flatten frame → AComponentFrame cf ∈ preorder frame.
Proof.
  rewrite <- flatten_preorder. intros (x & Hx & Hcast)%list_elem_of_omap.
  destruct x; [done|]. simpl in Hcast. by injection Hcast as ->.
Qed.

Lemma replay_registers_less (frame : LatticeFrame) :
  registered_by_replay (flatten frame) ⊆
  flat_map registered_by_visit (preorder frame).
Proof.
  intros a (cf & Hcf & Ha)%list_elem_of_In%in_flat_map.
  apply list_elem_of_In, in_flat_map. exists (AComponentFrame cf).
  split; [by apply list_elem_of_In, flatten_visited, list_elem_of_In|].
  simpl in Ha |- *. destruct (IsComponent cf); simpl in Ha; tauto.
Qed.

(** X8: on the registry [AppendFrame] does more than the replay of the
    occurrences through [AppendComponentFrame]: both return, what the
    replay registers [AppendFrame] registers too, and [AppendFrame] also
    registers the sub-tree itself and the component of every component
    frame, whether [IsComponent] holds of it or not. *)
Theorem AppendFrame_registers_more_than_replay (aFrame : SequenceFrame)
    (s : state) (m : AcceleratorModel) :
  currentModel s = Some m → frameStack s ≠ [] →
  ∃ s1 m1 s2 m2,
    AppendFrame aFrame s = Ok s1 ∧ currentModel s1 = Some m1 ∧
    flatten_then_splice aFrame s = Ok s2 ∧ currentModel s2 = Some m2 ∧
    dom (theElements m1) =
      dom (theElements m) ∪
      list_to_set (flat_map registered_by_visit (preorder (upcast aFrame))) ∧
    dom (theElements m2) =
      dom (theElements m) ∪
      list_to_set (registered_by_replay (flatten (upcast aFrame))) ∧
    dom (theElements m2) ⊆ dom (theElements m1) ∧
    sf_id aFrame ∈ dom (theElements m1) ∧
    (∀ cf, cf ∈ flatten (upcast aFrame) →
           component_id (GetComponent cf) ∈ dom (theElements m1)).
Proof.
  intros Hm Hst.
  destruct (AppendFrame_defined aFrame s) as [s1 H1]; [eauto|done|].
  pose proof H1 as (m0 & m1 & Hm0 & Hm1 & _ & He1 & _)%AppendFrame_Ok.
  rewrite Hm in Hm0. injection Hm0 as <-.
  destruct (replay_splices (flatten (upcast aFrame)) s m)
    as (s2 & m2 & H2 & Hm2 & _); [done..|].
  pose proof H2 as H2'. rewrite replay_run in H2'.
  apply run_registry with (m := m) in H2' as (m2' & Hm2' & He2); [|by
    clear; induction (flatten (upcast aFrame))|done].
  rewrite Hm2 in Hm2'. injection Hm2' as <-.
  rewrite registered_replay in He2.
  exists s1, m1, s2, m2. split_and!; try done.
  - rewrite He1, He2.
    pose proof (replay_registers_less (upcast aFrame)). set_solver.
  - rewrite He1. apply elem_of_union_r, elem_of_list_to_set. by left.
  - intros cf Hcf. rewrite He1.
    apply elem_of_union_r, elem_of_list_to_set, list_elem_of_In, in_flat_map.
    exists (AComponentFrame cf).
    split; [by apply list_elem_of_In, flatten_visited|]. simpl. tauto.
Qed.

Lemma AppendFrame_registers_more_than_replay_witness :
  ∃ s1 m1 s2 m2,
    AppendFrame Scenario.subtree (construct ∅) = Ok s1 ∧
    currentModel s1 = Some m1 ∧
    flatten_then_splice Scenario.subtree (construct ∅) = Ok s2 ∧
    currentModel s2 = Some m2 ∧
    Size (theElements m1) = 5 ∧ Size (theElements m2) = 4 ∧
    sf_id Scenario.subtree ∈ dom (theElements m1).
Proof.
  destruct (AppendFrame_registers_more_than_replay Scenario.subtree
              (construct ∅) Scenario.new_model)
    as (s1 & m1 & s2 & m2 & H1 & Hm1 & H2 & Hm2 & _ & _ & _ & Hin & _);
    [reflexivity|done|].
  exists s1, m1, s2, m2. split_and!; try done.
  - vm_compute in H1. injection H1 as <-. vm_compute in Hm1.
    injection Hm1 as <-. vm_compute. reflexivity.
  - vm_compute in H2. injection H2 as <-. vm_compute in Hm2.
    injection Hm2 as <-. vm_compute. reflexivity.
Defined.

(** X9: [NewFrame] followed at once by [EndFrame] puts a frame into the
    tree exactly as [AppendFrame] does, as the last child of the top frame
    with the stack as it was, but extracts nothing: the lattice is
    unchanged and only the frame itself is registered, where [AppendFrame]
    appends the component frames of the frame to the lattice. *)
Theorem NewFrame_EndFrame_builds_without_extracting
    (aFrame : SequenceFrame) (s : state) (m : AcceleratorModel) :
  currentModel s = Some m → frameStack s ≠ [] →
  ∃ s1 m1 s2 m2 top,
    run [CallNewFrame (Some aFrame); CallEndFrame] s = Ok s1 ∧
    currentModel s1 = Some m1 ∧
    AppendFrame aFrame s = Ok s2 ∧ currentModel s2 = Some m2 ∧
    top_frame s = Ok top ∧
    top_frame s1 = Ok (SequenceFrame_AppendFrame (upcast aFrame) top) ∧
    top_frame s2 = top_frame s1 ∧
    frameStack s1 = frameStack s2 ∧
    lattice m1 = lattice m ∧
    lattice m2 = lattice m ++ flatten (upcast aFrame) ∧
    theElements m1 = Add (sequence_element aFrame) (theElements m).
Proof.
  intros Hm Hst.
  destruct (top_frame_defined s) as [top Htop]; [eauto|done|].
  destruct (AppendFrame_defined aFrame s) as [s2 H2]; [eauto|done|].
  pose proof H2 as (m0 & m2 & Hm0 & Hm2 & Hl2 & _ & _ & _ & _ & Htop2)%
    AppendFrame_Ok.
  rewrite Hm in Hm0. injection Hm0 as <-. rewrite Htop in Htop2.
  pose proof H2 as H2'. unfold AppendFrame in H2'. rewrite Hm in H2'.
  cbn [run step]. unfold NewFrame. rewrite Hm. cbn [mbind outcome_bind].
  unfold EndFrame. cbn [frameStack set_stack deref].
  destruct (frameStack s) as [|p rest] eqn:Hst'; [done|].
  cbn [mbind outcome_bind].
  set (m1 := set_theElements _ m).
  set (s0 := set_stack (p :: rest) _).
  destruct (top_AppendFrame_defined (upcast aFrame) s0) as [s1 H1];
    [by eexists|done|].
  pose proof H1 as (He1 & Hl1 & _ & _ & _ & Htop1)%top_AppendFrame_Ok.
  destruct (currentModel s1) as [m1'|] eqn:Hm1; [|done].
  simpl in He1, Hl1. injection He1 as He1. injection Hl1 as Hl1.
  assert (top_frame s0 = top_frame s) as Htop0.
  { apply top_frame_ext; subst s0; simpl; [done|by rewrite Hm]. }
  rewrite Htop0, Htop in Htop1. simpl in Htop1, Htop2.
  exists s1, m1', s2, m2, top. rewrite H1. split_and!; try done.
  - by rewrite Htop2.
  - clear -H1 H2' Hst' Hm. unfold top_AppendFrame in H1, H2'.
    subst s0. simpl in H1, H2'. rewrite Hst' in H2'.
    destruct p; simpl in *.
    + injection H1 as <-. injection H2' as <-. by simpl.
    + injection H1 as <-. injection H2' as <-. by simpl.
Qed.

Lemma NewFrame_EndFrame_builds_without_extracting_witness :
  ∃ s1 m1 s2 m2,
    run [CallNewFrame (Some Scenario.subtree); CallEndFrame] (construct ∅) =
      Ok s1 ∧
    currentModel s1 = Some m1 ∧
    AppendFrame Scenario.subtree (construct ∅) = Ok s2 ∧
    currentModel s2 = Some m2 ∧
    top_frame s2 = top_frame s1 ∧
    lattice m1 = [] ∧
    lattice m2 = [] ++ flatten (upcast Scenario.subtree).
Proof.
  destruct (NewFrame_EndFrame_builds_without_extracting Scenario.subtree
              (construct ∅) Scenario.new_model)
    as (s1 & m1 & s2 & m2 & top & H1 & Hm1 & H2 & Hm2 & _ & _ & Htop & _ &
        Hl1 & Hl2 & _); [reflexivity|done|].
  by exists s1, m1, s2, m2.
Defined.

(** ** The registry as a set *)

Lemma Add_comm (e1 e2 : ModelElement) (r : gmap addr string) :
  element_id e1 ≠ element_id e2 → Add e1 (Add e2 r) = Add e2 (Add e1 r).
Proof.
  intros Hne. unfold Add.
  destruct (r !! element_id e1) eqn:E1, (r !! element_id e2) eqn:E2;
    rewrite ?lookup_insert_ne, ?E1, ?E2 by done; try done.
  by apply insert_insert_ne.
Qed.

(** X10: the registry behaves as a set under [AddModelElement]: adding
    two elements of different addresses in either order gives the same
    state, and adding an element twice is adding it once. *)
Theorem AddModelElement_any_order (e1 e2 : ModelElement) (s : state) :
  element_id e1 ≠ element_id e2 →
  (AddModelElement e1 s ≫= AddModelElement e2) =
  (AddModelElement e2 s ≫= AddModelElement e1) ∧
  (AddModelElement e1 s ≫= AddModelElement e1) = AddModelElement e1 s.
Proof.
  intros Hne. unfold AddModelElement.
  destruct (currentModel s) as [m|]; [|done]. simpl.
  unfold set_model, set_theElements. simpl.
  by rewrite Add_comm, Add_twice.
Qed.

Lemma AddModelElement_any_order_witness :
  (AddModelElement (component_element Scenario.Q1) (construct ∅) ≫=
   AddModelElement (sequence_element Scenario.F1)) =
  (AddModelElement (sequence_element Scenario.F1) (construct ∅) ≫=
   AddModelElement (component_element Scenario.Q1)).
Proof.
  apply (AddModelElement_any_order (component_element Scenario.Q1)
           (sequence_element Scenario.F1) (construct ∅)).
  simpl. discriminate.
Defined.

(** ** The frames beneath a balanced sequence *)

Lemma extends_refl (f : SequenceFrame) : extends f f.
Proof. by split_and!. Qed.

Lemma extends_trans (f g h : SequenceFrame) :
  extends f g → extends g h → extends f h.
Proof.
  intros (? & ? & ? & Hfg) (? & ? & ? & Hgh). split_and!; try congruence.
  by trans (subFrames g).
Qed.

Lemma extends_AppendFrame (child : LatticeFrame) (f : SequenceFrame) :
  extends f (SequenceFrame_AppendFrame child f).
Proof. split_and!; try done. by apply prefix_app_r. Qed.

Lemma kept_refl (m m' : AcceleratorModel) (p : FramePtr) :
  globalFrame m' = globalFrame m → kept m p m' p.
Proof.
  intros Hg. destruct p as [|f]; simpl.
  - split; [done|]. rewrite Hg. apply extends_refl.
  - split; [|done]. exists f. split; [done|apply extends_refl].
Qed.

Lemma kept_trans (m1 m2 m3 : AcceleratorModel) (p1 p2 p3 : FramePtr) :
  kept m1 p1 m2 p2 → kept m2 p2 m3 p3 → kept m1 p1 m3 p3.
Proof.
  destruct p1 as [|f1]; simpl.
  - intros [-> H12]. simpl. intros [-> H23]. split; [done|].
    by eapply extends_trans.
  - intros [(f2 & -> & H12) Hg12]. simpl. intros [(f3 & -> & H23) Hg23].
    split; [|congruence]. exists f3. split; [done|by eapply extends_trans].
Qed.

Lemma top_AppendFrame_kept (child : LatticeFrame) (s s' : state)
    (m : AcceleratorModel) (fs : list SequenceFrame) (p : FramePtr)
    (below : list FramePtr) :
  currentModel s = Some m →
  frameStack s = (OpenFramePtr <$> fs) ++ p :: below →
  top_AppendFrame child s = Ok s' →
  ∃ m' fs' p',
    currentModel s' = Some m' ∧
    frameStack s' = (OpenFramePtr <$> fs') ++ p' :: below ∧
    length fs' = length fs ∧ kept m p m' p'.
Proof.
  unfold top_AppendFrame. destruct s as [cm st mem n del]; simpl.
  intros -> ->. destruct fs as [|g fs]; simpl.
  - destruct p as [|f]; intros [= <-]; simpl.
    + eexists _, [], GlobalFramePtr. split_and!; try done.
      apply extends_AppendFrame.
    + exists m, [], (OpenFramePtr (SequenceFrame_AppendFrame child f)).
      split_and!; try done.
      eexists. split; [done|apply extends_AppendFrame].
  - intros [= <-]. simpl.
    exists m, (SequenceFrame_AppendFrame child g :: fs), p.
    split_and!; try done. by apply kept_refl.
Qed.

Lemma step_kept (c : call) (s s' : state) (m : AcceleratorModel)
    (fs : list SequenceFrame) (p : FramePtr) (below : list FramePtr) :
  construction_call c = true →
  currentModel s = Some m →
  frameStack s = (OpenFramePtr <$> fs) ++ p :: below →
  depth_needed c ≤ Datatypes.S (length fs) →
  step c s = Ok s' →
  ∃ m' fs' p',
    currentModel s' = Some m' ∧
    frameStack s' = (OpenFramePtr <$> fs') ++ p' :: below ∧
    Datatypes.S (length fs') = depth_after c (Datatypes.S (length fs)) ∧
    kept m p m' p'.
Proof.
  intros Hc Hm Hst Hdepth Hstep.
  destruct c as [| |[f|]| |d|e|f|cf]; try done; simpl in Hstep.
  - unfold NewFrame in Hstep. rewrite Hm in Hstep. injection Hstep as <-.
    eexists _, (f :: fs), p. simpl. rewrite Hst.
    split_and!; try done. by apply kept_refl.
  - unfold NewFrame in Hstep. by rewrite Hm in Hstep.
  - destruct fs as [|g fs]; simpl in Hdepth; [lia|].
    unfold EndFrame in Hstep. rewrite Hst in Hstep.
    assert (top_AppendFrame (upcast g)
              (set_stack ((OpenFramePtr <$> fs) ++ p :: below) s) = Ok s')
      as Htop by (by destruct fs).
    eapply (top_AppendFrame_kept _ _ _ m fs p below) in Htop
      as (m' & fs' & p' & Hm' & Hst' & Hlen & Hkept); [|done|by simpl].
    exists m', fs', p'. simpl. by rewrite Hlen.
  - unfold AppendDrift, AppendComponentFrame in Hstep. simpl in Hstep.
    rewrite Hm in Hstep. apply bind_Ok in Hstep as (s1 & H1 & [= <-]).
    eapply (top_AppendFrame_kept _ _ _ _ fs p below) in H1
      as (m' & fs' & p' & Hm' & Hst' & Hlen & Hkept); [|done|by simpl].
    exists m', fs', p'. simpl. rewrite Hlen. split_and!; try done;
      (eapply kept_trans; [|exact Hkept]); by apply kept_refl.
  - unfold AddModelElement in Hstep. rewrite Hm in Hstep.
    injection Hstep as <-. eexists _, fs, p. simpl.
    split_and!; try done. by apply kept_refl.
  - unfold AppendFrame in Hstep. rewrite Hm in Hstep.
    eapply (top_AppendFrame_kept _ _ _ _ fs p below) in Hstep
      as (m' & fs' & p' & Hm' & Hst' & Hlen & Hkept); [|done|by simpl].
    exists m', fs', p'. simpl. rewrite Hlen. split_and!; try done;
      (eapply kept_trans; [|exact Hkept]); by apply kept_refl.
  - unfold AppendComponentFrame in Hstep.
    rewrite Hm in Hstep. apply bind_Ok in Hstep as (s1 & H1 & [= <-]).
    eapply (top_AppendFrame_kept _ _ _ _ fs p below) in H1
      as (m' & fs' & p' & Hm' & Hst' & Hlen & Hkept); [|done|by simpl].
    exists m', fs', p'. simpl. rewrite Hlen. split_and!; try done;
      (eapply kept_trans; [|exact Hkept]); by apply kept_refl.
Qed.

Lemma run_kept (cs : list call) :
  ∀ s m fs p below,
    currentModel s = Some m →
    frameStack s = (OpenFramePtr <$> fs) ++ p :: below →
    balanced_from (length fs) cs = true →
    ∃ s' m' p',
      run cs s = Ok s' ∧
      currentModel s' = Some m' ∧ frameStack s' = p' :: below ∧
      kept m p m' p'.
Proof.
  induction cs as [|c cs IH]; intros s m fs p below Hm Hst Hb.
  - simpl in Hb. apply bool_decide_eq_true in Hb.
    destruct fs; [|done]. exists s, m, p. split_and!; [done..|].
    by apply kept_refl.
  - apply balanced_from_cons in Hb as (Hc & Hnull & Hneed & depth' & Hd & Hb).
    destruct (step_construction_defined c s) as [s1 H1]; [done|done|eauto| |].
    { rewrite Hst, length_app, length_fmap. simpl. lia. }
    destruct (step_kept c s s1 m fs p below)
      as (m1 & fs1 & p1 & Hm1 & Hst1 & Hlen1 & Hkept1); [done..|].
    rewrite Hd in Hlen1. injection Hlen1 as <-.
    destruct (IH s1 m1 fs1 p1 below)
      as (s' & m' & p' & Hrun & Hm' & Hst' & Hkept'); [done..|].
    exists s', m', p'. simpl. rewrite H1. simpl.
    split_and!; [done..|]. by eapply kept_trans.
Qed.

(** X11: in a construction on a new constructor that hands over every
    frame object once, a balanced sequence of calls returns and leaves the
    stack as it found it: the frames beneath the top are untouched, and
    the top entry is the same frame, with the same address, name and
    origin, and its children of before followed by new ones; when the top
    is not the root, the root frame is unchanged. *)
Theorem balanced_calls_keep_the_stack (before cs : list call)
    (mem : gmap addr nat) (s : state) (m : AcceleratorModel) (p : FramePtr)
    (below : list FramePtr) :
  forallb construction_call before = true →
  each_frame_once (before ++ cs) = true →
  run before (construct mem) = Ok s →
  currentModel s = Some m →
  frameStack s = p :: below →
  balanced cs = true →
  ∃ s' m' p',
    run cs s = Ok s' ∧
    currentModel s' = Some m' ∧ frameStack s' = p' :: below ∧
    kept m p m' p'.
Proof.
  intros _ _ _ Hm Hst Hb. by apply (run_kept cs s m [] p below).
Qed.

Lemma balanced_calls_keep_the_stack_witness :
  ∃ s' m' f',
    run [CallAppendComponentFrame Scenario.shared_1;
         CallNewFrame (Some Scenario.F2);
         CallAppendComponentFrame Scenario.shared_2;
         CallEndFrame]
      (Scenario.state_after
         [CallAppendDrift (2%Q); CallNewFrame (Some Scenario.F1)]) = Ok s' ∧
    currentModel s' = Some m' ∧
    frameStack s' = [OpenFramePtr f'; GlobalFramePtr] ∧
    sf_id f' = sf_id Scenario.F1 ∧
    length (subFrames f') = 2.
Proof.
  destruct (balanced_calls_keep_the_stack
              [CallAppendDrift (2%Q); CallNewFrame (Some Scenario.F1)]
              [CallAppendComponentFrame Scenario.shared_1;
               CallNewFrame (Some Scenario.F2);
               CallAppendComponentFrame Scenario.shared_2;
               CallEndFrame]
              ∅
              (Scenario.state_after
                 [CallAppendDrift (2%Q); CallNewFrame (Some Scenario.F1)])
              (match currentModel
                       (Scenario.state_after
                          [CallAppendDrift (2%Q);
                           CallNewFrame (Some Scenario.F1)]) with
               | Some m => m
               | None => Scenario.new_model
               end)
              (OpenFramePtr Scenario.F1) [GlobalFramePtr])
    as (s' & m' & p' & Hrun & Hm' & Hst' & (f' & -> & Hid & _) & _);
    [reflexivity..|].
  exists s', m', f'. split_and!; [done..|].
  vm_compute in Hrun. injection Hrun as <-. simpl in Hst'.
  by injection Hst' as <-.
Defined.

(** ** The objects of [AppendDrift] *)

Lemma run_brk (cs : list call) :
  ∀ s s' m,
    forallb construction_call cs = true → currentModel s = Some m →
    run cs s = Ok s' → brk s' = allocated cs + brk s.
Proof.
  induction cs as [|c cs IH]; intros s s' m Hcs Hm Hrun; simpl in Hrun.
  - by injection Hrun as <-.
  - simpl in Hcs. apply andb_true_iff in Hcs as [Hc Hcs].
    apply bind_Ok in Hrun as (s1 & H1 & Hrun).
    destruct (step_construction_Ok c s s1 m) as (m1 & Hm1 & _ & _ & Hn);
      [done..|].
    rewrite (IH s1 s' m1), Hn, allocated_cons by done. lia.
Qed.

(** X12: after any calls of a construction on a new constructor that hand
    over objects of the caller only, [AppendDrift] returns and adds one
    component frame at the end of the lattice, indexed by its position,
    around a drift of the given length; both objects are new to the
    registry, which grows by exactly two. *)
Theorem AppendDrift_adds_new_objects (cs : list call) (mem : gmap addr nat)
    (s : state) (d : Q) :
  forallb construction_call cs = true →
  forallb client_call cs = true →
  run cs (construct mem) = Ok s →
  ∃ m s' m' cf,
    currentModel s = Some m ∧
    AppendDrift d s = Ok s' ∧ currentModel s' = Some m' ∧
    lattice m' = lattice m ++ [cf] ∧
    GetBeamlineIndex s' cf = Some (length (lattice m)) ∧
    component_length (GetComponent cf) = d ∧
    (cf_id cf ∉ dom (theElements m)) ∧
    (component_id (GetComponent cf) ∉ dom (theElements m)) ∧
    Size (theElements m') = Size (theElements m) + 2.
Proof.
  intros Hcs Hclient Hrun.
  assert (reachable s) as Hs by (by exists mem, cs).
  destruct (run_registry cs (construct mem) s
              {| globalFrame :=
                   {| sf_id := Allocated 0; sf_name := "GLOBAL";
                      sf_origin := originAtEntrance;
                      sf_consolidated := false; subFrames := [] |};
                 theElements := ∅; lattice := [] |})
    as (m & Hm & He); [done..|].
  pose proof (run_brk cs (construct mem) s _ Hcs eq_refl Hrun) as Hn.
  simpl in He, Hn.
  assert (∀ k, brk s ≤ k → Allocated k ∉ dom (theElements m)) as Hnew.
  { intros k Hk. rewrite He, dom_empty_L, union_empty_l_L, elem_of_list_to_set.
    intros [Hin|(k' & [= ->] & Hk')]%client_calls_registered; [done|lia|done]. }
  destruct (AppendDrift_defined d s) as [s' H']; [eauto| |].
  { apply reachable_invariant in Hs as (_ & _ & Hrooted).
    destruct Hrooted as [n Hst]; [eauto|].
    destruct (frameStack s); [by destruct n|done]. }
  pose proof H' as H''. unfold AppendDrift in H''.
  apply AppendComponentFrame_Ok in H''
    as (m0 & m' & Hm0 & Hm' & Hl & He' & _ & Hmem & _).
  simpl in Hm0, Hl, He', Hmem. rewrite Hm in Hm0. injection Hm0 as <-.
  eexists m, s', m', _. split_and!; [done|done|done|exact Hl| |done| | |].
  - unfold GetBeamlineIndex. rewrite Hmem. apply lookup_insert_eq.
  - apply Hnew. simpl. lia.
  - apply Hnew. simpl. lia.
  - rewrite He', !Size_Add. simpl.
    rewrite decide_False.
    + rewrite decide_False; [lia|]. apply Hnew. lia.
    + rewrite Add_dom. simpl.
      intros [Heq%elem_of_singleton|Hin]%elem_of_union.
      * injection Heq as Heq. lia.
      * revert Hin. apply Hnew. lia.
Qed.

Lemma AppendDrift_adds_new_objects_witness :
  ∃ m s' m',
    currentModel (Scenario.state_after Scenario.shared_calls) = Some m ∧
    AppendDrift (1 # 2)%Q (Scenario.state_after Scenario.shared_calls) =
      Ok s' ∧
    currentModel s' = Some m' ∧
    length (lattice m') = 3 ∧
    Size (theElements m') = Size (theElements m) + 2.
Proof.
  destruct (AppendDrift_adds_new_objects Scenario.shared_calls ∅
              (Scenario.state_after Scenario.shared_calls) (1 # 2)%Q)
    as (m & s' & m' & cf & Hm & H' & Hm' & Hl & _ & _ & _ & _ & Hsize);
    [reflexivity..|].
  exists m, s', m'. split_and!; [done..| |done].
  rewrite Hl, length_app. vm_compute in Hm. injection Hm as <-. reflexivity.
Defined.

(** ** Starting over *)

Lemma top_AppendFrame_deleted (child : LatticeFrame) (s s' : state) :
  top_AppendFrame child s = Ok s' → deleted s' = deleted s.
Proof.
  unfold top_AppendFrame. destruct s as [cm st mem n del]; simpl.
  destruct st as [|[|f] rest]; [done| |].
  - destruct cm as [m|]; [|done]. by intros [= <-].
  - by intros [= <-].
Qed.

Lemma step_deleted (c : call) (s s' : state) :
  construction_call c = true → step c s = Ok s' → deleted s' = deleted s.
Proof.
  intros Hc. destruct c as [| |[f|]| |d|e|f|cf]; try done; simpl.
  - unfold NewFrame. destruct (currentModel s); [|done]. by intros [= <-].
  - unfold NewFrame. by destruct (currentModel s).
  - unfold EndFrame. destruct (frameStack s) as [|p [|q rest]]; try done.
    intros (f & _ & H)%bind_Ok. by apply top_AppendFrame_deleted in H.
  - unfold AppendDrift, AppendComponentFrame. simpl.
    destruct (currentModel s); [|done].
    intros (s1 & H & [= <-])%bind_Ok. by apply top_AppendFrame_deleted in H.
  - unfold AddModelElement. destruct (currentModel s); [|done].
    by intros [= <-].
  - unfold AppendFrame. destruct (currentModel s); [|done].
    intros H. by apply top_AppendFrame_deleted in H.
  - unfold AppendComponentFrame. destruct (currentModel s); [|done].
    intros (s1 & H & [= <-])%bind_Ok. by apply top_AppendFrame_deleted in H.
Qed.

Lemma run_deleted (cs : list call) :
  ∀ s s',
    forallb construction_call cs = true → run cs s = Ok s' →
    deleted s' = deleted s.
Proof.
  induction cs as [|c cs IH]; intros s s' Hcs Hrun; simpl in Hrun.
  - by injection Hrun as <-.
  - simpl in Hcs. apply andb_true_iff in Hcs as [Hc Hcs].
    apply bind_Ok in Hrun as (s1 & H1 & Hrun).
    rewrite (IH s1 s' Hcs Hrun). by apply (step_deleted c).
Qed.

(** X13: [NewModel] in the middle of a construction, also with frames
    open, deletes the model in progress and starts a construction that
    owes nothing to it: a balanced sequence after it, on objects that were
    not handed over before, each frame object once, returns and
    [GetModel] succeeds; the model deleted is the one of before and no
    other, and the lattice of the model returned is its flattened frame
    tree, with one entry for each occurrence appended since. *)
Theorem NewModel_restarts_construction (before cs : list call)
    (mem : gmap addr nat) (s : state) :
  forallb construction_call before = true →
  run before (construct mem) = Ok s →
  new_objects before cs = true →
  each_frame_once (before ++ cs) = true →
  forallb opens_empty cs = true →
  balanced cs = true →
  ∃ m s' M s'',
    currentModel s = Some m ∧
    run cs (NewModel s) = Ok s' ∧ GetModel s' = Ok (M, s'') ∧
    deleted s'' = [m] ∧
    lattice M = flatten (upcast (globalFrame M)) ∧
    length (lattice M) = occurrences_appended cs.
Proof.
  intros Hbefore Hs _ _ Hempty Hb.
  destruct (run_registry before (construct mem) s Scenario.new_model)
    as (m & Hm & _); [done..|].
  assert (deleted s = []) as Hdel
    by by rewrite (run_deleted before (construct mem) s).
  set (m0 := {| globalFrame :=
                  {| sf_id := Allocated (brk s); sf_name := "GLOBAL";
                     sf_origin := originAtEntrance;
                     sf_consolidated := false; subFrames := [] |};
                theElements := ∅; lattice := [] |}).
  assert (frameStack (NewModel s) = [GlobalFramePtr]) as Hst.
  { simpl. by rewrite Hm, drain_empty. }
  destruct (balanced_run_flattened cs (NewModel s) m0)
    as (s' & m' & Hrun & Hm' & Hst' & Hl' & Hlen); [done..|].
  assert (deleted s' = [m]) as Hdel'.
  { rewrite (run_deleted cs (NewModel s) s');
      [|by apply (balanced_from_construction cs 0)|done].
    simpl. by rewrite Hm, Hdel. }
  exists m, s'. unfold GetModel. rewrite Hm', Hst'. eexists _, _.
  by split_and!.
Qed.

Lemma NewModel_restarts_construction_witness :
  ∃ m s' M s'',
    currentModel
      (Scenario.state_after
         [CallAppendDrift (2%Q); CallNewFrame (Some Scenario.F1)]) = Some m ∧
    run [CallAppendComponentFrame Scenario.shared_1;
         CallNewFrame (Some Scenario.F2);
         CallAppendFrame Scenario.subtree;
         CallEndFrame]
      (NewModel (Scenario.state_after
                   [CallAppendDrift (2%Q); CallNewFrame (Some Scenario.F1)])) =
      Ok s' ∧
    GetModel s' = Ok (M, s'') ∧
    deleted s'' = [m] ∧
    length (lattice M) = 3.
Proof.
  destruct (NewModel_restarts_construction
              [CallAppendDrift (2%Q); CallNewFrame (Some Scenario.F1)]
              [CallAppendComponentFrame Scenario.shared_1;
               CallNewFrame (Some Scenario.F2);
               CallAppendFrame Scenario.subtree;
               CallEndFrame]
              ∅
              (Scenario.state_after
                 [CallAppendDrift (2%Q); CallNewFrame (Some Scenario.F1)]))
    as (m & s' & M & s'' & Hm & Hrun & Hget & Hdel & _ & Hlen);
    [reflexivity..|].
  by exists m, s', M, s''.
Defined.
